(** * A shallow embedding of the workflow builder's decision logic

    Three source files are covered:
    - [credential-selector.tsx]: the [CredentialSelector] component
      ([getServiceId], [getProviderId], [fetchCredentials],
      [getProviderIcon], [getProviderName]);
    - [agent.ts]: the tool resolver of [AgentBlock];
    - [code.tsx]: the drop handler of the [Code] editor.

    React state setters and callbacks are modelled as commands of a small
    state-and-exception monad over the component's next state; values a
    function closes over at render time are passed to it as arguments. *)

From stdpp Require Import base option list strings gmap.
From Stdlib Require Import Ascii DecimalString DecimalNat.

(** ** JavaScript primitives used by the sources *)

Module Js.

(** [!!s] on a string: only the empty string is falsy. *)
Definition truthy (s : string) : bool := negb (String.eqb s "").

(** The outcome of an expression that may throw. *)
Inductive Result (A : Type) : Type :=
| Return (a : A)
| Throw (error : string).
Arguments Return {A} a.
Arguments Throw {A} error.

(** [s.includes(c)] for a one-character needle. *)
Fixpoint includes (c : ascii) (s : string) : bool :=
  match s with
  | EmptyString => false
  | String d s' => if Ascii.eqb d c then true else includes c s'
  end.

(** [s.split(c)] for a one-character separator: never the empty array. *)
Fixpoint split (c : ascii) (s : string) : list string :=
  match s with
  | EmptyString => [EmptyString]
  | String d s' =>
      if Ascii.eqb d c then EmptyString :: split c s'
      else match split c s' with
           | part :: parts => String d part :: parts
           | [] => [String d EmptyString]
           end
  end.

(** [parts.join(sep)]. *)
Fixpoint join (sep : string) (parts : list string) : string :=
  match parts with
  | [] => EmptyString
  | [part] => part
  | part :: parts' => part +:+ sep +:+ join sep parts'
  end.

(** [s.charAt(0)]: the first code unit as a string, or the empty
    string. *)
Definition charAt0 (s : string) : string :=
  match s with
  | EmptyString => EmptyString
  | String c _ => String c EmptyString
  end.

(** What a plain object inherits from [Object.prototype]: a function (the
    [Object] constructor or a method), whose [name] is given, or, through
    [__proto__], [Object.prototype] itself. All of them are truthy. *)
Inductive Inherited : Type :=
| InheritedFunction (name : string)
| InheritedPrototype.

Definition prototype_methods : list string :=
  ["hasOwnProperty"; "isPrototypeOf"; "propertyIsEnumerable";
   "toLocaleString"; "toString"; "valueOf";
   "__defineGetter__"; "__defineSetter__";
   "__lookupGetter__"; "__lookupSetter__"].

Definition object_prototype (key : string) : option Inherited :=
  if String.eqb key "constructor" then Some (InheritedFunction "Object")
  else if String.eqb key "__proto__" then Some InheritedPrototype
  else if existsb (String.eqb key) prototype_methods
       then Some (InheritedFunction key)
  else None.

(** [v.name] of an inherited value: a function's name, [undefined] on
    [Object.prototype]. *)
Definition inherited_name (v : Inherited) : option string :=
  match v with
  | InheritedFunction name => Some name
  | InheritedPrototype => None
  end.

(** [obj[key]] on an object literal whose own properties are [obj]: the
    own property, else what [Object.prototype] has under that key, else
    [undefined]. *)
Inductive Property (A : Type) : Type :=
| Own (a : A)
| Inherit (v : Inherited)
| Absent.
Arguments Own {A} a.
Arguments Inherit {A} v.
Arguments Absent {A}.

Definition get_property {A} (obj : gmap string A) (key : string)
  : Property A :=
  match obj !! key with
  | Some a => Own a
  | None =>
      match object_prototype key with
      | Some v => Inherit v
      | None => Absent
      end
  end.

(** [s.slice(0, n)] and [s.slice(n)] for an index [n >= 0]; both clamp
    at the end of the string. *)
Fixpoint slice_to (n : nat) (s : string) : string :=
  match n, s with
  | S n', String c s' => String c (slice_to n' s')
  | _, _ => EmptyString
  end.

Fixpoint slice_from (n : nat) (s : string) : string :=
  match n, s with
  | S n', String _ s' => slice_from n' s'
  | _, _ => s
  end.

End Js.

(** ** The state-and-exception monad of a component *)

Module Eff.
Import Js.

Section Monad.
Context {W : Type}.

Definition M (A : Type) : Type := W -> Result A * W.

Definition ret {A} (a : A) : M A := fun w => (Return a, w).

Definition bind {A B} (m : M A) (k : A -> M B) : M B :=
  fun w =>
    match m w with
    | (Return a, w') => k a w'
    | (Throw e, w') => (Throw e, w')
    end.

Definition throw {A} (e : string) : M A := fun w => (Throw e, w).

(** [await p]: a settled promise either yields its value or rejects. *)
Definition await {A} (p : Result A) : M A := fun w => (p, w).

Definition modify (f : W -> W) : M unit := fun w => (Return tt, f w).

(** [if (c) { body }] with no [else]. *)
Definition when (c : bool) (body : M unit) : M unit :=
  if c then body else ret tt.

(** [try { body } catch (error) { handler } finally { cleanup }]. *)
Definition try_catch_finally {A}
    (body : M A) (handler : string -> M A) (cleanup : M unit) : M A :=
  fun w =>
    let '(r, w1) :=
      match body w with
      | (Return a, w') => (Return a, w')
      | (Throw e, w') => handler e w'
      end in
    match cleanup w1 with
    | (Return _, w2) => (r, w2)
    | (Throw e, w2) => (Throw e, w2)
    end.

(** [try { body } catch (error) { handler }]. *)
Definition try_catch {A} (body : M A) (handler : string -> M A) : M A :=
  try_catch_finally body handler (ret tt).

(** The state a command leaves behind. *)
Definition exec {A} (m : M A) (w : W) : W := snd (m w).

End Monad.

Arguments M W A : clear implicits.

Declare Scope eff_scope.
Delimit Scope eff_scope with eff.
Notation "x <- m ;; k" := (bind m (fun x => k))
  (at level 100, m at next level, right associativity) : eff_scope.
Notation "m ;; k" := (bind m (fun _ => k))
  (at level 100, right associativity) : eff_scope.

End Eff.

(** ** [credential-selector.tsx] *)

Module CredentialSelector.
Import Js Eff.

(** [Credential], as the component reads it. *)
Module Credential.
Record t : Type := mk {
  id : string;
  name : string;
  provider : string;
  isDefault : bool
}.
End Credential.
Abbreviation Credential := Credential.t.

(** [CredentialSelectorProps], with the defaults of the destructuring
    pattern applied; [onChange] is observed through the calls it
    receives. *)
Record Props : Type := {
  value : string;
  provider : string;
  requiredScopes : list string;
  label : string;
  disabled : bool;
  serviceId : option string
}.

(** The [useState] cells of the component, together with what it did to
    the outside: the arguments [onChange] was called with and the
    messages written with [console.error], oldest first. *)
Record World : Type := {
  open : bool;
  credentials : list Credential;
  isLoading : bool;
  showOAuthModal : bool;
  selectedId : string;
  onChange_calls : list string;
  console_errors : list string
}.

Definition setCredentials (l : list Credential) : M World unit :=
  modify (fun w =>
    {| open := open w; credentials := l; isLoading := isLoading w;
       showOAuthModal := showOAuthModal w; selectedId := selectedId w;
       onChange_calls := onChange_calls w;
       console_errors := console_errors w |}).

Definition setIsLoading (b : bool) : M World unit :=
  modify (fun w =>
    {| open := open w; credentials := credentials w; isLoading := b;
       showOAuthModal := showOAuthModal w; selectedId := selectedId w;
       onChange_calls := onChange_calls w;
       console_errors := console_errors w |}).

Definition setSelectedId (s : string) : M World unit :=
  modify (fun w =>
    {| open := open w; credentials := credentials w;
       isLoading := isLoading w; showOAuthModal := showOAuthModal w;
       selectedId := s; onChange_calls := onChange_calls w;
       console_errors := console_errors w |}).

Definition onChange (s : string) : M World unit :=
  modify (fun w =>
    {| open := open w; credentials := credentials w;
       isLoading := isLoading w; showOAuthModal := showOAuthModal w;
       selectedId := selectedId w;
       onChange_calls := onChange_calls w ++ [s];
       console_errors := console_errors w |}).

Definition console_error (msg : string) : M World unit :=
  modify (fun w =>
    {| open := open w; credentials := credentials w;
       isLoading := isLoading w; showOAuthModal := showOAuthModal w;
       selectedId := selectedId w; onChange_calls := onChange_calls w;
       console_errors := console_errors w ++ [msg] |}).

(** The body of a credentials response, [{ credentials: Credential[] }],
    and the part of a [Response] the component looks at. [json] is the
    settled value of [response.json()]. *)
Record Data : Type := { data_credentials : list Credential }.

Record Response : Type := {
  ok : bool;
  json : Result Data
}.

Section Component.

(** The registry functions of [@/lib/oauth] the component calls, and
    the network. [fetch url] is the settled value of the promise. *)
Variable getServiceIdFromScopes : string -> list string -> string.
Variable getProviderIdFromServiceId : string -> string.
Variable fetch : string -> Result Response.

Variable props : Props.

Definition getServiceId : string :=
  match serviceId props with
  | Some s =>
      if truthy s then s
      else getServiceIdFromScopes (provider props) (requiredScopes props)
  | None => getServiceIdFromScopes (provider props) (requiredScopes props)
  end.

Definition getProviderId : string :=
  let effectiveServiceId := getServiceId in
  getProviderIdFromServiceId effectiveServiceId.

Definition credentials_url (providerId : string) : string :=
  "/api/auth/oauth/credentials?provider=" +:+ providerId.

(** [fetchCredentials], closed over the [selectedId] of the render
    that created it. *)
Definition fetchCredentials (selectedId : string) : M World unit :=
  (setIsLoading true ;;
   try_catch_finally
     (let providerId := getProviderId in
      response <- await (fetch (credentials_url providerId)) ;;
      when (ok response)
        (data <- await (json response) ;;
         let creds := data_credentials data in
         setCredentials creds ;;
         when (truthy selectedId &&
               negb (existsb (fun cred => String.eqb (Credential.id cred) selectedId) creds))
           (setSelectedId "" ;;
            onChange "") ;;
         when ((negb (truthy selectedId) ||
                negb (existsb (fun cred => String.eqb (Credential.id cred) selectedId) creds)) &&
               (0 <? length creds)%nat)
           (let defaultCred := List.find (fun cred => Credential.isDefault cred) creds in
            match defaultCred with
            | Some defaultCred =>
                setSelectedId (Credential.id defaultCred) ;;
                onChange (Credential.id defaultCred)
            | None =>
                if (length creds =? 1)%nat then
                  match creds !! 0%nat with
                  | Some first =>
                      setSelectedId (Credential.id first) ;;
                      onChange (Credential.id first)
                  | None => throw "TypeError"
                  end
                else ret tt
            end)))
     (fun error => console_error ("Error fetching credentials: " +:+ error))
     (setIsLoading false))%eff.

(** One call of [fetchCredentials] from a render whose state is [w]. *)
Definition run_fetchCredentials (w : World) : World :=
  exec (fetchCredentials (selectedId w)) w.

End Component.

(** *** Provider name and icon lookup *)

(** A service of the registry and a base provider's entry, with the
    fields the component reads. An icon is a component: it maps the
    [className] it is given to a rendered element. The [services] of an
    entry are kept in [Object.entries] order. *)
Module Service.
Record t (Element : Type) : Type := mk {
  name : string;
  providerId : string;
  icon : string -> Element
}.
Arguments mk {Element}.
Arguments name {Element}.
Arguments providerId {Element}.
Arguments icon {Element}.
End Service.

Module Config.
Record t (Element : Type) : Type := mk {
  name : string;
  icon : string -> Element;
  services : list (string * Service.t Element)
}.
Arguments mk {Element}.
Arguments name {Element}.
Arguments icon {Element}.
Arguments services {Element}.
End Config.

(** What [parseProvider] returns, as far as the component destructures
    it. *)
Record ParsedProvider : Type := { baseProvider : string }.

(** How a block of statements ends: with [return v], or by running to
    its end. *)
Inductive Completion (A : Type) : Type :=
| Returned (v : A)
| FellThrough.
Arguments Returned {A} v.
Arguments FellThrough {A}.

Section Lookup.

(** Rendered elements, the [ExternalLink] icon of lucide-react, the
    engine's [String.prototype.toUpperCase], and the registry of
    [@/lib/oauth]: [OAUTH_PROVIDERS] by its own properties, and the two
    registry functions the component calls inside [try] blocks, which
    may throw. *)
Variable Element : Type.
Variable ExternalLink : string -> Element.
Variable toUpperCase : string -> string.
Variable OAUTH_PROVIDERS : gmap string (Config.t Element).
Variable parseProvider : string -> Result ParsedProvider.
Variable getServiceByProviderAndId :
  string -> string -> Result (Service.t Element).
Variable getServiceIdFromScopes : string -> list string -> string.

Variable props : Props.

(** [part.charAt(0).toUpperCase() + part.slice(1)]. *)
Definition capitalize (part : string) : string :=
  toUpperCase (charAt0 part) +:+ slice_from 1 part.

(** [getProviderIcon]. An inherited value passes the [!baseProviderConfig]
    test; it has neither [services] nor [icon], so [Object.values] or
    the call of [icon] throws. *)
Definition getProviderIcon (providerName : string) : Result Element :=
  match parseProvider providerName with
  | Throw e => Throw e
  | Return parsed =>
      let baseProviderConfig :=
        get_property OAUTH_PROVIDERS (baseProvider parsed) in
      match baseProviderConfig with
      | Absent => Return (ExternalLink "h-4 w-4")
      | Inherit _ => Throw "TypeError"
      | Own baseProviderConfig =>
          let found :=
            if includes "-" providerName then
              List.find
                (fun service =>
                   String.eqb (Service.providerId service) providerName)
                (map snd (Config.services baseProviderConfig))
            else None in
          match found with
          | Some service => Return (Service.icon service "h-4 w-4")
          | None => Return (Config.icon baseProviderConfig "h-4 w-4")
          end
      end
  end.

(** The inner [try] block of [getProviderName]. On an inherited value
    [baseProviderConfig?.services] is [undefined], so the loop runs over
    no entry, and [baseProviderConfig.name] is the value's [name]. *)
Definition getProviderName_parse (providerName : string)
  : Result (Completion (option string)) :=
  match parseProvider providerName with
  | Throw e => Throw e
  | Return parsed =>
      let baseProviderConfig :=
        get_property OAUTH_PROVIDERS (baseProvider parsed) in
      let found :=
        if includes "-" providerName then
          let serviceKey :=
            match split "-" providerName !! 1%nat with
            | Some part => if truthy part then part else ""
            | None => ""
            end in
          List.find
            (fun '(key, service) =>
               String.eqb key serviceKey
               || String.eqb key providerName
               || String.eqb (Service.providerId service) providerName)
            (match baseProviderConfig with
             | Own config => Config.services config
             | Inherit _ | Absent => []
             end)
        else None in
      match found with
      | Some (_, service) => Return (Returned (Some (Service.name service)))
      | None =>
          match baseProviderConfig with
          | Own config => Return (Returned (Some (Config.name config)))
          | Inherit v => Return (Returned (inherited_name v))
          | Absent => Return FellThrough
          end
      end
  end.

(** [getProviderName]; [None] is [undefined]. *)
Definition getProviderName (providerName : string)
  : Result (option string) :=
  let effectiveServiceId := getServiceId getServiceIdFromScopes props in
  match getServiceByProviderAndId providerName effectiveServiceId with
  | Return service => Return (Some (Service.name service))
  | Throw _ =>
      match getProviderName_parse providerName with
      | Return (Returned name) => Return name
      | Return FellThrough | Throw _ =>
          Return (Some (join " " (map capitalize (split "-" providerName))))
      end
  end.

End Lookup.

End CredentialSelector.

(** ** [agent.ts] *)

Module AgentBlock.
Import Js.

(** The values [params.model] is modelled to take ([params] is a
    [Record<string, any>]): absent, [null], a boolean or a string. *)
Inductive Value : Type :=
| Undefined
| Null
| Bool (b : bool)
| Str (s : string).

(** [!!v]. *)
Definition truthy_value (v : Value) : bool :=
  match v with
  | Undefined | Null => false
  | Bool b => b
  | Str s => truthy s
  end.

(** [String(v)]: the property key [v] indexes with, and its rendering in
    a template literal. *)
Definition to_string (v : Value) : string :=
  match v with
  | Undefined => "undefined"
  | Null => "null"
  | Bool true => "true"
  | Bool false => "false"
  | Str s => s
  end.

(** [params.model]: a missing property reads as [undefined]. *)
Definition get_model (params : gmap string Value) : Value :=
  match params !! "model" with
  | Some v => v
  | None => Undefined
  end.

(** What the resolver hands back: a tool id of the table, or a value
    the table inherits from [Object.prototype]. *)
Inductive Tool : Type :=
| ToolId (t : string)
| ToolInherited (v : Inherited).

Section Tool.

(** [MODEL_TOOLS] of [../consts], model name to tool id, by its own
    properties. *)
Variable MODEL_TOOLS : gmap string string.

(** [AgentBlock.tools.config.tool]. *)
Definition tool (params : gmap string Value) : Result Tool :=
  let model :=
    if truthy_value (get_model params) then get_model params
    else Str "gpt-4o" in
  if negb (truthy_value model) then Throw "No model selected"
  else
    let tool := get_property MODEL_TOOLS (to_string model) in
    match tool with
    | Own t =>
        if truthy t then Return (ToolId t)
        else Throw ("Invalid model selected: " +:+ to_string model)
    | Inherit v => Return (ToolInherited v)
    | Absent => Throw ("Invalid model selected: " +:+ to_string model)
    end.

End Tool.

End AgentBlock.

(** ** [code.tsx] *)

Module Code.
Import Js Eff.

(** The [useState] cells [handleDrop] writes, the value pushed to the
    store with [setStoreValue], and the [console.error] log. *)
Record World : Type := {
  code : string;
  storeValue : option string;
  showTags : bool;
  cursorPosition : nat;
  activeSourceBlockId : option string;
  console_errors : list string
}.

Definition setCode (s : string) : M World unit :=
  modify (fun w =>
    {| code := s; storeValue := storeValue w; showTags := showTags w;
       cursorPosition := cursorPosition w;
       activeSourceBlockId := activeSourceBlockId w;
       console_errors := console_errors w |}).

Definition setStoreValue (s : string) : M World unit :=
  modify (fun w =>
    {| code := code w; storeValue := Some s; showTags := showTags w;
       cursorPosition := cursorPosition w;
       activeSourceBlockId := activeSourceBlockId w;
       console_errors := console_errors w |}).

Definition setCursorPosition (n : nat) : M World unit :=
  modify (fun w =>
    {| code := code w; storeValue := storeValue w; showTags := showTags w;
       cursorPosition := n;
       activeSourceBlockId := activeSourceBlockId w;
       console_errors := console_errors w |}).

Definition setShowTags (b : bool) : M World unit :=
  modify (fun w =>
    {| code := code w; storeValue := storeValue w; showTags := b;
       cursorPosition := cursorPosition w;
       activeSourceBlockId := activeSourceBlockId w;
       console_errors := console_errors w |}).

Definition setActiveSourceBlockId (id : option string) : M World unit :=
  modify (fun w =>
    {| code := code w; storeValue := storeValue w; showTags := showTags w;
       cursorPosition := cursorPosition w;
       activeSourceBlockId := id;
       console_errors := console_errors w |}).

Definition console_error (msg : string) : M World unit :=
  modify (fun w =>
    {| code := code w; storeValue := storeValue w; showTags := showTags w;
       cursorPosition := cursorPosition w;
       activeSourceBlockId := activeSourceBlockId w;
       console_errors := console_errors w ++ [msg] |}).

(** The dragged payload after [JSON.parse]: [JsonNull] is the value
    [null], on which reading [.type] throws; any other value is seen
    through its [type] property ([None] when it is missing or not a
    string) and through [connectionData?.sourceBlockId]. *)
Inductive Json : Type :=
| JsonNull
| JsonValue (type : option string) (sourceBlockId : option string).

(** [data.type], which throws on [null]. *)
Definition get_type (data : Json) : Result (option string) :=
  match data with
  | JsonNull => Throw "TypeError"
  | JsonValue type _ => Return type
  end.

Definition get_sourceBlockId (data : Json) : option string :=
  match data with
  | JsonNull => None
  | JsonValue _ sourceBlockId => sourceBlockId
  end.

(** [handleDrop], closed over the [code] of the render that created it.
    [parsed] is the outcome of [JSON.parse] on the dragged data and
    [selectionStart] is [textarea?.selectionStart], [None] when it is
    [undefined] or [null]. The deferred placement of the textarea's
    caret acts on the DOM only and is left out. *)
Definition handleDrop (code : string)
    (parsed : Result Json) (selectionStart : option nat) : M World unit :=
  (try_catch
     (data <- await parsed ;;
      type <- await (get_type data) ;;
      if negb (bool_decide (type = Some "connectionBlock")) then ret tt
      else
        let dropPosition :=
          match selectionStart with
          | Some n => n
          | None => String.length code
          end in
        let newValue :=
          slice_to dropPosition code +:+ "<" +:+ slice_from dropPosition code in
        setCode newValue ;;
        setStoreValue newValue ;;
        setCursorPosition (dropPosition + 1) ;;
        setShowTags true ;;
        when (match get_sourceBlockId data with
              | Some id => truthy id
              | None => false
              end)
          (setActiveSourceBlockId (get_sourceBlockId data)))
     (fun error =>
        console_error ("Failed to parse drop data: " +:+ error)))%eff.

(** One drop on a render whose state is [w]. *)
Definition run_handleDrop (parsed : Result Json)
    (selectionStart : option nat) (w : World) : World :=
  exec (handleDrop (code w) parsed selectionStart) w.

End Code.

(** * Specification vocabulary

    The notions the properties below are stated with. *)

Module FetchSpec.
Import Js Eff CredentialSelector.

(** [S] appears in [R]: some credential of [R] has id [S]. *)
Definition contains (R : list Credential) (S : string) : Prop :=
  exists c, c ∈ R /\ Credential.id c = S.

(** The auto-select policy in the words of the specification: the one
    credential flagged [isDefault] if there is exactly one, else the
    only entry of a one-entry list, else no selection. *)
Definition autoSelect_spec (R : list Credential) : string :=
  match List.filter Credential.isDefault R with
  | [d] => Credential.id d
  | _ =>
      match R with
      | [c] => Credential.id c
      | _ => ""
      end
  end.

(** The credential the policy picks as the component applies it: the
    first credential flagged [isDefault], else the only entry of a
    one-entry list. *)
Definition autoSelected (R : list Credential) : option Credential :=
  match List.find Credential.isDefault R with
  | Some d => Some d
  | None =>
      match R with
      | [c] => Some c
      | _ => None
      end
  end.

Definition autoSelect (R : list Credential) : string :=
  match autoSelected R with
  | Some c => Credential.id c
  | None => ""
  end.

(** A successful fetch in closed form. The selection is kept when it
    is non-empty and appears in [R]; otherwise the policy's pick
    replaces it, and [onChange] hears the reset of a stale selection
    first and the pick second. *)
Definition keeps (R : list Credential) (S : string) : bool :=
  truthy S && existsb (fun cred => String.eqb (Credential.id cred) S) R.

Definition selection_after (R : list Credential) (S : string) : string :=
  if keeps R S then S else autoSelect R.

Definition notifications (R : list Credential) (S : string) : list string :=
  if keeps R S then []
  else
    (if truthy S then [""] else [])
    ++ match autoSelected R with
       | Some c => [Credential.id c]
       | None => []
       end.

(** The ways a fetch fails: the request rejects, the response is not
    OK, or reading its body rejects. *)
Inductive FetchFailure : Result Response -> Prop :=
| RequestRejected e : FetchFailure (Throw e)
| NotOk r : ok r = false -> FetchFailure (Return r)
| BodyRejected r e :
    ok r = true -> json r = Throw e -> FetchFailure (Return r).

(** The error a failed fetch throws into the [catch] block, if any. *)
Definition thrown (o : Result Response) : option string :=
  match o with
  | Throw e => Some e
  | Return r =>
      if ok r then
        match json r with
        | Throw e => Some e
        | Return _ => None
        end
      else None
  end.

(** A response carrying the credential list [R]. *)
Definition ok_response (R : list Credential) : Result Response :=
  Return {| ok := true; json := Return {| data_credentials := R |} |}.

(** Sample data. *)
Definition cred (id : string) (isDefault : bool) : Credential :=
  Credential.mk id id "google-email" isDefault.

Definition sample_props (serviceId : option string) : Props :=
  {| value := ""; provider := "google"; requiredScopes := [];
     label := "Select credential"; disabled := false;
     serviceId := serviceId |}.

Definition sample_world (selectedId : string) : World :=
  {| open := false; credentials := []; isLoading := false;
     showOAuthModal := false; selectedId := selectedId;
     onChange_calls := []; console_errors := [] |}.

Definition two_defaults : list Credential :=
  [cred "a" true; cred "b" true].

Definition empty_id_list : list Credential :=
  [cred "" false; cred "b" true].

Definition not_ok_response : Result Response :=
  Return {| ok := false; json := Throw "Unexpected token" |}.

(** A registry that names a provider's service after the provider, and
    a server that answers every request with the same outcome. *)
Definition sample_serviceIdFromScopes
    (provider : string) (scopes : list string) : string := provider.

Definition sample_providerIdFromServiceId (serviceId : string) : string :=
  serviceId.

Definition sample_fetch (o : Result Response) (url : string)
  : Result Response := o.

Definition sample_run (o : Result Response) (selectedId : string) : World :=
  run_fetchCredentials sample_serviceIdFromScopes
    sample_providerIdFromServiceId (sample_fetch o)
    (sample_props None) (sample_world selectedId).

End FetchSpec.

Module LookupSpec.
Import Js CredentialSelector.

Section Strategies.
Variable Element : Type.
Variable toUpperCase : string -> string.
Variable OAUTH_PROVIDERS : gmap string (Config.t Element).
Variable parseProvider : string -> Result ParsedProvider.
Variable getServiceByProviderAndId :
  string -> string -> Result (Service.t Element).
Variable getServiceIdFromScopes : string -> list string -> string.
Variable props : Props.

(** Strategy 1: the exact (provider, service) match of the registry. *)
Definition exact_match (p : string) : option string :=
  match getServiceByProviderAndId p
          (getServiceId getServiceIdFromScopes props) with
  | Return service => Some (Service.name service)
  | Throw _ => None
  end.

(** The registry entry of the base provider of [p], if [p] parses and
    its base provider is registered. *)
Definition base_config (p : string) : option (Config.t Element) :=
  match parseProvider p with
  | Return parsed => OAUTH_PROVIDERS !! baseProvider parsed
  | Throw _ => None
  end.

(** The service segment of a compound id ["base-service"]. *)
Definition service_segment (p : string) : string :=
  default "" (split "-" p !! 1%nat).

(** A service entry answers to [p] by key, by full id, or by its
    provider id field. *)
Definition answers (p : string) (entry : string * Service.t Element)
  : Prop :=
  entry.1 = service_segment p
  \/ entry.1 = p
  \/ Service.providerId entry.2 = p.

#[export] Instance answers_dec p entry : Decision (answers p entry).
Proof. unfold answers. apply _. Defined.

(** Strategy 2: for a compound id, the first service of the base
    provider's service map that answers to it. *)
Definition compound_service (p : string) : option string :=
  if includes "-" p then
    config ← base_config p;
    entry ← List.find (fun entry => bool_decide (answers p entry))
              (Config.services config);
    Some (Service.name entry.2)
  else None.

(** Strategy 3: the display name of the base provider. *)
Definition base_name (p : string) : option string :=
  Config.name <$> base_config p.

(** Title-casing a word: its first character in upper case, the rest
    as it is. *)
Definition title_word (w : string) : string :=
  toUpperCase (String.substring 0 1 w)
  +:+ String.substring 1 (String.length w - 1) w.

(** Last resort: the dash-separated segments, each title-cased, joined
    by spaces. *)
Definition title_case (p : string) : string :=
  join " " (map title_word (split "-" p)).

Definition strategies : list (string -> option string) :=
  [exact_match; compound_service; base_name].

Fixpoint first_match (fs : list (string -> option string)) (p : string)
  : option string :=
  match fs with
  | [] => None
  | f :: fs' =>
      match f p with
      | Some n => Some n
      | None => first_match fs' p
      end
  end.

(** The lookup in the words of the specification: the strategies in
    order, first match wins, title-casing when none matches. *)
Definition getProviderName_spec (p : string) : string :=
  default (title_case p) (first_match strategies p).

(** Every display name of the registry is a non-empty string. *)
Definition registry_named : Prop :=
  (forall p sid service,
     getServiceByProviderAndId p sid = Return service ->
     Service.name service <> "")
  /\ (forall base config,
        OAUTH_PROVIDERS !! base = Some config ->
        Config.name config <> ""
        /\ (forall key service,
              In (key, service) (Config.services config) ->
              Service.name service <> "")).

(** The base provider of [p] is registered, or at least is not the
    name of something [OAUTH_PROVIDERS] inherits. *)
Definition base_not_inherited (p : string) : Prop :=
  forall parsed,
    parseProvider p = Return parsed ->
    is_Some (OAUTH_PROVIDERS !! baseProvider parsed)
    \/ object_prototype (baseProvider parsed) = None.

(** What [OAUTH_PROVIDERS[baseProvider]] reads for [p]; nothing when
    [p] does not parse. *)
Definition base_property (p : string) : Property (Config.t Element) :=
  match parseProvider p with
  | Return parsed => get_property OAUTH_PROVIDERS (baseProvider parsed)
  | Throw _ => Absent
  end.

(** Upper-casing never empties a string. *)
Definition upper_nonempty : Prop :=
  forall s, s <> "" -> toUpperCase s <> "".

(** The initial of every segment of [p] upper-cases to a string of its
    own length with no dash in it, as the ASCII letters and digits do. *)
Definition plain_initials (p : string) : Prop :=
  Forall
    (fun part =>
       String.length (toUpperCase (charAt0 part))
       = String.length (charAt0 part)
       /\ includes "-" (toUpperCase (charAt0 part)) = false)
    (split "-" p).

End Strategies.

(** A sample registry: the [sheets] service under [google]. *)
Definition sample_sheets : Service.t string :=
  {| Service.name := "Google Sheets";
     Service.providerId := "google-sheets";
     Service.icon := fun className => "GoogleSheetsIcon" |}.

Definition sample_google : Config.t string :=
  {| Config.name := "Google";
     Config.icon := fun className => "GoogleIcon";
     Config.services := [("sheets", sample_sheets)] |}.

Definition sample_providers : gmap string (Config.t string) :=
  {[ "google" := sample_google ]}.

Definition sample_parseProvider (p : string) : Result ParsedProvider :=
  Return {| baseProvider := default p (head (split "-" p)) |}.

Definition sample_getService (p sid : string) : Result (Service.t string) :=
  if String.eqb p "google" && String.eqb sid "sheets"
  then Return sample_sheets
  else Throw "Service not found".

Definition sample_ExternalLink (className : string) : string :=
  "ExternalLink".

(** Upper-casing of ASCII text, for the examples: the letters [a] to
    [z] go to [A] to [Z], every other character stays. *)
Fixpoint sample_toUpperCase (s : string) : string :=
  match s with
  | EmptyString => EmptyString
  | String c s' =>
      let n := nat_of_ascii c in
      String
        (if (97 <=? n)%nat && (n <=? 122)%nat then ascii_of_nat (n - 32)
         else c)
        (sample_toUpperCase s')
  end.

End LookupSpec.

Module AgentSpec.
Import Js AgentBlock.

(** The effective model: [params.model] as a property key, or
    ['gpt-4o'] when it is absent or falsy. *)
Definition effective_model (params : gmap string Value) : string :=
  match params !! "model" with
  | Some v => if truthy_value v then to_string v else "gpt-4o"
  | None => "gpt-4o"
  end.

(** Every tool id of the table is a non-empty string. *)
Definition tools_named (MODEL_TOOLS : gmap string string) : Prop :=
  forall model t, MODEL_TOOLS !! model = Some t -> t <> "".

Definition sample_tools : gmap string string :=
  {[ "gpt-4o" := "openai_chat" ]}.

End AgentSpec.

Module CodeSpec.
Import Js Code.

(** The dragged payload parses to a value whose [type] is
    ['connectionBlock']. *)
Definition is_connection_drop (parsed : Result Json) : bool :=
  match parsed with
  | Return (JsonValue (Some type) _) => String.eqb type "connectionBlock"
  | _ => false
  end.

Definition chars (s : string) : list ascii := String.list_ascii_of_string s.

Definition sample_world (code : string) : World :=
  {| code := code; storeValue := None; showTags := false;
     cursorPosition := 0; activeSourceBlockId := None;
     console_errors := [] |}.

End CodeSpec.

(** * The rest of the components

    The handlers, effects and render helpers of the two components that
    the properties above do not use. *)

Module SelectorHandlers.
Import Js Eff CredentialSelector.

Definition setOpen (b : bool) : M World unit :=
  modify (fun w =>
    {| open := b; credentials := credentials w; isLoading := isLoading w;
       showOAuthModal := showOAuthModal w; selectedId := selectedId w;
       onChange_calls := onChange_calls w;
       console_errors := console_errors w |}).

Definition setShowOAuthModal (b : bool) : M World unit :=
  modify (fun w =>
    {| open := open w; credentials := credentials w;
       isLoading := isLoading w; showOAuthModal := b;
       selectedId := selectedId w; onChange_calls := onChange_calls w;
       console_errors := console_errors w |}).


(** The effect on [value]: [setSelectedId(value)]. *)
Definition sync_value (value : string) : M World unit :=
  setSelectedId value.

(** [selectedCredential], computed at every render. *)
Definition selectedCredential (w : World) : option Credential :=
  List.find
    (fun cred => String.eqb (Credential.id cred) (selectedId w))
    (credentials w).

(** The text of the trigger button: the selected credential's name, or
    the label when no credential is selected. *)
Definition trigger_text (props : Props) (w : World) : string :=
  match selectedCredential w with
  | Some selectedCredential => Credential.name selectedCredential
  | None => label props
  end.

(** What [saveToStorage] is given. *)
Inductive Stored : Type :=
| StoredString (s : string)
| StoredList (l : list string).

(** The component together with the calls [saveToStorage] received,
    oldest first. *)
Record Page : Type := {
  component : World;
  saved : list (string * Stored)
}.

Definition in_component {A} (m : M World A) : M Page A :=
  fun p =>
    let '(r, w') := m (component p) in
    (r, {| component := w'; saved := saved p |}).

Definition saveToStorage (key : string) (v : Stored) : M Page unit :=
  modify (fun p =>
    {| component := component p; saved := saved p ++ [(key, v)] |}).

Section Handlers.

Variable getServiceIdFromScopes : string -> list string -> string.
Variable getProviderIdFromServiceId : string -> string.
Variable fetch : string -> Result Response.

(** [client.signIn.oauth2({ providerId, callbackURL })], by the settled
    value of its promise. *)
Variable signIn : string -> string -> Result unit.

Variable props : Props.

(** [handleAddCredential]; [href] is [window.location.href]. *)
Definition handleAddCredential (href : string) : M Page unit :=
  (let effectiveServiceId := getServiceId getServiceIdFromScopes props in
   let providerId :=
     getProviderId getServiceIdFromScopes getProviderIdFromServiceId props in
   saveToStorage "pending_service_id" (StoredString effectiveServiceId) ;;
   saveToStorage "pending_oauth_scopes" (StoredList (requiredScopes props)) ;;
   saveToStorage "pending_oauth_return_url" (StoredString href) ;;
   saveToStorage "pending_oauth_provider_id" (StoredString providerId) ;;
   in_component (setShowOAuthModal true) ;;
   in_component (setOpen false))%eff.

(** [handleDirectOAuth]. *)
Definition handleDirectOAuth (href : string) : M World unit :=
  try_catch
    (let providerId :=
       getProviderId getServiceIdFromScopes getProviderIdFromServiceId props in
     await (signIn providerId href))
    (fun error => console_error ("OAuth login error: " +:+ error)).

(** The mount effect: it fetches unless [initialFetchRef.current] is
    set, and sets it. The fetch is run to its end. *)
Definition mount_effect (st : bool * World) : bool * World :=
  let '(initialFetchRef, w) := st in
  if negb initialFetchRef then
    (true,
     run_fetchCredentials getServiceIdFromScopes getProviderIdFromServiceId
       fetch props w)
  else (initialFetchRef, w).

(** The effect on [open]: it fetches when the popover is open. *)
Definition open_effect (w : World) : World :=
  if open w then
    run_fetchCredentials getServiceIdFromScopes getProviderIdFromServiceId
      fetch props w
  else w.

End Handlers.

Definition nonempty_ids (R : list Credential) : Prop :=
  Forall (fun c => Credential.id c <> "") R.

End SelectorHandlers.

Module CodeHandlers.
Import Js Eff Code.

(** [handleTagSelect]. *)
Definition handleTagSelect (newValue : string) : M World unit :=
  (setCode newValue ;;
   setStoreValue newValue ;;
   setShowTags false ;;
   setActiveSourceBlockId None)%eff.

(** The [onClose] of the tag dropdown. *)
Definition onClose : M World unit :=
  (setShowTags false ;;
   setActiveSourceBlockId None)%eff.

(** The effect on [storeValue]: a value held by the store replaces the
    code. *)
Definition sync_store (storeValue : option string) : M World unit :=
  match storeValue with
  | Some v => setCode v
  | None => ret tt
  end.

(** What [checkTagTrigger] answers, as far as the editor reads it. *)
Record Trigger : Type := { show : bool }.

Section Editor.

(** [checkTagTrigger] of [@/components/ui/tag-dropdown]. *)
Variable checkTagTrigger : string -> nat -> Trigger.

(** [onValueChange] of the editor; [textarea] is the [selectionStart] of
    the textarea, [None] when there is no textarea. *)
Definition onValueChange (newCode : string) (textarea : option nat)
  : M World unit :=
  (setCode newCode ;;
   setStoreValue newCode ;;
   match textarea with
   | Some pos =>
       setCursorPosition pos ;;
       let trigger := checkTagTrigger newCode pos in
       setShowTags (show trigger) ;;
       when (negb (show trigger)) (setActiveSourceBlockId None)
   | None => ret tt
   end)%eff.

(** What can happen to the editor. [SyncStore] is a run of the store
    effect, the store answering with the value last pushed to it. *)
Inductive Event : Type :=
| Drop (parsed : Result Json) (selectionStart : option nat)
| Edit (newCode : string) (textarea : option nat)
| TagSelect (newValue : string)
| Close
| SyncStore.

Definition step (w : World) (e : Event) : World :=
  match e with
  | Drop parsed selectionStart => run_handleDrop parsed selectionStart w
  | Edit newCode textarea => exec (onValueChange newCode textarea) w
  | TagSelect newValue => exec (handleTagSelect newValue) w
  | Close => exec onClose w
  | SyncStore => exec (sync_store (storeValue w)) w
  end.

Definition run_events (w : World) (events : list Event) : World :=
  fold_left step events w.

End Editor.

(** The store holds nothing yet, or it holds the code on display. *)
Definition store_synced (w : World) : Prop :=
  storeValue w = None \/ storeValue w = Some (code w).

(** While the tag dropdown is hidden no source block is active. *)
Definition no_stale_source (w : World) : Prop :=
  showTags w = false -> activeSourceBlockId w = None.

(** A trigger that shows the dropdown when the cursor is at the end. *)
Definition sample_trigger (code : string) (pos : nat) : Trigger :=
  {| show := (String.length code <=? pos)%nat |}.

Definition sample_events : list Event :=
  [Drop (Return (JsonValue (Some "connectionBlock") (Some "block-1")))
     (Some 1);
   Edit "a<b" (Some 1);
   Drop (Throw "Unexpected token") None;
   TagSelect "a<block-1.output>b";
   SyncStore].

End CodeHandlers.

Module Gutter.
Import Js Eff.

(** The [useState] cells of the line-number gutter. *)
Record World : Type := {
  visualLineHeights : list nat;
  lineCount : nat
}.

Definition setVisualLineHeights (l : list nat) : M World unit :=
  modify (fun w => {| visualLineHeights := l; lineCount := lineCount w |}).

Definition setLineCount (n : nat) : M World unit :=
  modify (fun w =>
    {| visualLineHeights := visualLineHeights w; lineCount := n |}).

(** A number in a template literal. *)
Definition decimal (n : nat) : string :=
  NilEmpty.string_of_uint (Nat.to_uint n).

(** One [<div>] of the gutter: its React key, whether its class list
    has ['invisible'], and the number it holds. *)
Record Row : Type := {
  key : string;
  invisible : bool;
  number : nat
}.

(** The rows [renderLineNumbers] pushes from line [lineNumber] on. *)
Fixpoint rows_from (lineNumber : nat) (heights : list nat) : list Row :=
  match heights with
  | [] => []
  | height :: heights' =>
      map (fun i =>
             {| key := decimal lineNumber +:+ "-" +:+ decimal i;
                invisible := (0 <? i)%nat;
                number := lineNumber |})
          (seq 0 height)
      ++ rows_from (S lineNumber) heights'
  end.

(** [renderLineNumbers]. *)
Definition renderLineNumbers (w : World) : list Row :=
  rows_from 1 (visualLineHeights w).

(** [Math.ceil(h / 21)] for a pixel count [h]. *)
Definition ceil_div (h d : nat) : nat := (h + (d - 1)) / d.

Section Measure.

(** The layout engine: the [offsetHeight] of the measuring span for a
    width in pixels and a text. *)
Variable offsetHeight : Z -> string -> nat.

(** [calculateVisualLines] on the code of the render that created it;
    [clientWidth] is that of the editor's [pre] element, [None] when the
    editor or the element is missing. *)
Definition calculateVisualLines (code : string) (clientWidth : option Z)
  : M World unit :=
  match clientWidth with
  | None => ret tt
  | Some clientWidth =>
      (let lines := split "010" code in
       let newVisualLineHeights :=
         map (fun line =>
                ceil_div
                  (offsetHeight (clientWidth - 24)
                     (if truthy line then line else " "))
                  21)
             lines in
       setVisualLineHeights newVisualLineHeights ;;
       let totalVisualLines :=
         fold_left (fun sum height => sum + height) newVisualLineHeights 0 in
       setLineCount totalVisualLines)%eff
  end.

End Measure.



(** How often [c] occurs in [s]. *)
Fixpoint occurrences (c : ascii) (s : string) : nat :=
  match s with
  | EmptyString => 0
  | String d s' => (if Ascii.eqb d c then 1 else 0) + occurrences c s'
  end.

End Gutter.

Module AgentOptions.
Import Js AgentBlock.

(** The [options] of the model dropdown: [Object.keys(MODEL_TOOLS)], as
    a set. *)
Definition model_options (MODEL_TOOLS : gmap string string) : gset string :=
  dom MODEL_TOOLS.

End AgentOptions.

(** * Facts about the JavaScript primitives *)

Module JsFacts.
Import Js.

Lemma truthy_nonempty (s : string) : truthy s = true <-> s <> "".
Proof.
  unfold truthy. destruct (String.eqb_spec s ""); simpl; split; intros; done.
Qed.

Lemma not_truthy_empty (s : string) : truthy s = false <-> s = "".
Proof.
  unfold truthy. destruct (String.eqb_spec s ""); simpl; split; intros; done.
Qed.

Lemma split_nonempty (c : ascii) (s : string) : split c s <> [].
Proof.
  destruct s as [|d s]; cbn; [discriminate|].
  destruct (Ascii.eqb d c); [discriminate|].
  destruct (split c s); discriminate.
Qed.

Lemma split_single (c : ascii) (s part : string) :
  split c s = [part] -> part = s.
Proof.
  revert part. induction s as [|d s IH]; intros part; cbn.
  - by intros [= <-].
  - destruct (Ascii.eqb d c).
    + intros [= _ Hrest]. by apply split_nonempty in Hrest.
    + destruct (split c s) as [|part' parts] eqn:Hsplit.
      * by apply split_nonempty in Hsplit.
      * intros [= <- ->]. f_equal. by apply IH.
Qed.

Lemma append_nonempty_r (a b : string) : b <> "" -> a +:+ b <> "".
Proof. intros Hb. destruct a; [exact Hb | discriminate]. Qed.

End JsFacts.

(** * Properties of [fetchCredentials] *)

Module FetchProps.
Import Js JsFacts Eff CredentialSelector FetchSpec.

Lemma eqb_id_spec (S : string) (c : Credential) :
  String.eqb (Credential.id c) S = true <-> Credential.id c = S.
Proof. apply String.eqb_eq. Qed.

Lemma existsb_contains (R : list Credential) (S : string) :
  existsb (fun cred => String.eqb (Credential.id cred) S) R = true
  <-> contains R S.
Proof.
  unfold contains. rewrite existsb_exists. split.
  - intros (c & Hin & Heq). exists c. split.
    + by apply list_elem_of_In.
    + by apply eqb_id_spec.
  - intros (c & Hin & Heq). exists c. split.
    + by apply list_elem_of_In.
    + by apply eqb_id_spec.
Qed.

Lemma existsb_not_contains (R : list Credential) (S : string) :
  existsb (fun cred => String.eqb (Credential.id cred) S) R = false
  <-> ~ contains R S.
Proof.
  rewrite <- existsb_contains.
  destruct (existsb _ R); split; intros H; try done.
Qed.

Ltac fetch_unfold H :=
  unfold run_fetchCredentials, exec, fetchCredentials;
  unfold try_catch_finally, bind, await; cbv zeta; rewrite H.

Section Fetch.
Variable getServiceIdFromScopes : string -> list string -> string.
Variable getProviderIdFromServiceId : string -> string.
Variable fetch : string -> Result Response.
Variable props : Props.

Local Abbreviation run :=
  (run_fetchCredentials getServiceIdFromScopes
     getProviderIdFromServiceId fetch props).
Local Abbreviation outcome :=
  (fetch (credentials_url
            (getProviderId getServiceIdFromScopes
               getProviderIdFromServiceId props))).

(** What one successful fetch does to the component. *)
Lemma run_fetched (R : list Credential) (w : World) :
  outcome = ok_response R ->
  run w =
    {| open := open w; credentials := R; isLoading := false;
       showOAuthModal := showOAuthModal w;
       selectedId := selection_after R (selectedId w);
       onChange_calls :=
         onChange_calls w ++ notifications R (selectedId w);
       console_errors := console_errors w |}.
Proof.
  intros H. fetch_unfold H.
  unfold ok_response; cbn [ok json data_credentials]; unfold when.
  unfold selection_after, notifications, keeps, autoSelect, autoSelected.
  destruct (truthy (selectedId w)) eqn:Htruthy;
    destruct (existsb _ R) eqn:Hmem;
    destruct (List.find _ R) as [d|] eqn:Hfind;
    destruct R as [|c [|c' R']];
    try discriminate; cbn;
    rewrite <- ?app_assoc, ?app_nil_r; try reflexivity.
  all: apply not_truthy_empty in Htruthy; by rewrite Htruthy.
Qed.


(** What one failed fetch does to the component. *)
Lemma run_failed (w : World) :
  FetchFailure outcome ->
  run w =
    {| open := open w; credentials := credentials w; isLoading := false;
       showOAuthModal := showOAuthModal w; selectedId := selectedId w;
       onChange_calls := onChange_calls w;
       console_errors :=
         console_errors w
         ++ match thrown outcome with
            | Some e => ["Error fetching credentials: " +:+ e]
            | None => []
            end |}.
Proof.
  intros H. unfold run_fetchCredentials, exec, fetchCredentials.
  unfold try_catch_finally, bind, await; cbv zeta.
  destruct H as [e | r Hok | r e Hok Hjson]; cbn.
  - reflexivity.
  - rewrite Hok. cbn. by rewrite app_nil_r.
  - rewrite Hok, Hjson. cbn. reflexivity.
Qed.

Lemma find_head_filter (f : Credential -> bool) (R : list Credential) :
  List.find f R = head (List.filter f R).
Proof.
  induction R as [|c R IH]; [reflexivity|].
  cbn. destruct (f c); [reflexivity | exact IH].
Qed.

(** With at most one credential flagged [isDefault], the policy the
    component applies picks what the specification's wording picks. *)
Lemma autoSelect_agrees (R : list Credential) :
  length (List.filter Credential.isDefault R) <= 1 ->
  autoSelect R = autoSelect_spec R.
Proof.
  unfold autoSelect, autoSelected, autoSelect_spec.
  rewrite find_head_filter.
  destruct (List.filter Credential.isDefault R) as [|d [|d' ds]];
    cbn; intros Hlen; try reflexivity.
  - by destruct R as [|c [|c' R']].
  - lia.
Qed.

Lemma autoSelected_contains (R : list Credential) (c : Credential) :
  autoSelected R = Some c -> c ∈ R.
Proof.
  unfold autoSelected.
  destruct (List.find Credential.isDefault R) as [d|] eqn:Hfind.
  - intros [= <-]. apply list_elem_of_In.
    by apply (find_some _ _ Hfind).
  - destruct R as [|c0 [|c1 R']]; intros [= <-]. by left.
Qed.

Lemma autoSelect_first_default (pre post : list Credential) (d : Credential) :
  Forall (fun c => Credential.isDefault c = false) pre ->
  Credential.isDefault d = true ->
  autoSelect (pre ++ d :: post) = Credential.id d.
Proof.
  intros Hpre Hd. unfold autoSelect, autoSelected.
  assert (List.find Credential.isDefault (pre ++ d :: post) = Some d) as ->;
    [|reflexivity].
  induction Hpre as [|c pre Hc Hpre IH]; cbn.
  - by rewrite Hd.
  - by rewrite Hc.
Qed.

Lemma autoSelect_no_default (R : list Credential) :
  Forall (fun c => Credential.isDefault c = false) R ->
  autoSelect R = match R with [c] => Credential.id c | _ => "" end.
Proof.
  intros Hnone. unfold autoSelect, autoSelected.
  assert (List.find Credential.isDefault R = None) as ->.
  { induction Hnone as [|c R Hc Hnone IH]; [reflexivity|].
    cbn. by rewrite Hc. }
  by destruct R as [|c [|c' R']].
Qed.

(** C1, as amended: after a successful fetch of [R] that does not
    contain the prior selection, the final selection is the id of the
    first credential of [R] flagged [isDefault] if there is one,
    otherwise the id of the only entry if [R] has exactly one entry,
    otherwise the empty string; whenever at most one credential is
    flagged [isDefault] this is the selection the specification's
    wording names. *)
Theorem fetch_auto_selects (R : list Credential) (w : World) :
  outcome = ok_response R ->
  ~ contains R (selectedId w) ->
  (forall pre d post,
     R = pre ++ d :: post ->
     Forall (fun c => Credential.isDefault c = false) pre ->
     Credential.isDefault d = true ->
     selectedId (run w) = Credential.id d)
  /\ (Forall (fun c => Credential.isDefault c = false) R ->
      forall c, R = [c] -> selectedId (run w) = Credential.id c)
  /\ (Forall (fun c => Credential.isDefault c = false) R ->
      length R <> 1 -> selectedId (run w) = "")
  /\ (length (List.filter Credential.isDefault R) <= 1 ->
      selectedId (run w) = autoSelect_spec R).
Proof.
  intros Hfetch Hnot.
  assert (selectedId (run w) = autoSelect R) as ->.
  { rewrite (run_fetched R w Hfetch). cbn. unfold selection_after, keeps.
    apply existsb_not_contains in Hnot. rewrite Hnot.
    by rewrite andb_false_r. }
  repeat split.
  - intros pre d post -> Hpre Hd. by apply autoSelect_first_default.
  - intros Hnone c ->. by rewrite autoSelect_no_default.
  - intros Hnone Hlen. rewrite autoSelect_no_default by done.
    by destruct R as [|c [|c' R']].
  - by apply autoSelect_agrees.
Qed.

(** C2, as amended: after a successful fetch of [R], a non-empty prior
    selection that appears in [R] is still the selection, and
    [onChange] is not called. *)
Theorem fetch_keeps_valid_selection (R : list Credential) (w : World) :
  outcome = ok_response R ->
  selectedId w <> "" ->
  contains R (selectedId w) ->
  selectedId (run w) = selectedId w
  /\ onChange_calls (run w) = onChange_calls w.
Proof.
  intros Hfetch Hne Hin.
  rewrite (run_fetched R w Hfetch). cbn.
  unfold selection_after, notifications, keeps.
  apply truthy_nonempty in Hne. apply existsb_contains in Hin.
  rewrite Hne, Hin. cbn. by rewrite app_nil_r.
Qed.

(** C3: after every successful fetch, whatever the fetched list and
    the prior selection, the cached list is the fetched one and the
    selection is empty or the id of a credential in it. *)
Theorem fetch_selection_invariant (R : list Credential) (w : World) :
  outcome = ok_response R ->
  credentials (run w) = R
  /\ (selectedId (run w) = ""
      \/ contains (credentials (run w)) (selectedId (run w))).
Proof.
  intros Hfetch. rewrite (run_fetched R w Hfetch). cbn.
  split; [reflexivity|].
  unfold selection_after. destruct (keeps R (selectedId w)) eqn:Hkeep.
  - right. apply existsb_contains.
    unfold keeps in Hkeep. by apply andb_true_iff in Hkeep as [_ ?].
  - unfold autoSelect.
    destruct (autoSelected R) as [c|] eqn:Hpick; [right | by left].
    exists c. split; [by apply autoSelected_contains | reflexivity].
Qed.

(** C4, as amended: a fetch that rejects, answers with a non-OK
    response, or whose body cannot be read leaves the selection and
    the cached list as they were and does not call [onChange]; the
    error of a rejected request or body is written with
    [console.error], and a non-OK response writes nothing. *)
Theorem fetch_failure_atomic (w : World) :
  FetchFailure outcome ->
  selectedId (run w) = selectedId w
  /\ credentials (run w) = credentials w
  /\ onChange_calls (run w) = onChange_calls w
  /\ (forall e, thrown outcome = Some e ->
      console_errors (run w) =
        console_errors w ++ ["Error fetching credentials: " +:+ e])
  /\ (thrown outcome = None ->
      console_errors (run w) = console_errors w)
  /\ (thrown outcome = None <->
      exists r, outcome = Return r /\ ok r = false).
Proof.
  intros Hfail. rewrite (run_failed w Hfail). cbn.
  repeat split.
  - intros e ->. reflexivity.
  - intros ->. by rewrite app_nil_r.
  - intros Hnone. destruct Hfail as [e | r Hok | r e Hok Hjson].
    + discriminate.
    + by exists r.
    + cbn in Hnone. by rewrite Hok, Hjson in Hnone.
  - intros (r & Hr & Hok). rewrite Hr. cbn. by rewrite Hok.
Qed.

(** C8: when a successful fetch returns a list that does not contain
    the non-empty prior selection, [onChange] is first called with the
    empty string; if a default or a single credential is then
    auto-selected, a second call with its id follows in the same
    fetch. *)
Theorem fetch_reset_notifies_first (R : list Credential) (w : World) :
  outcome = ok_response R ->
  selectedId w <> "" ->
  ~ contains R (selectedId w) ->
  onChange_calls (run w) =
    onChange_calls w
    ++ "" :: match autoSelected R with
             | Some c => [Credential.id c]
             | None => []
             end
  /\ (forall c, autoSelected R = Some c ->
      selectedId (run w) = Credential.id c
      /\ onChange_calls (run w) =
           onChange_calls w ++ [""; Credential.id c]).
Proof.
  intros Hfetch Hne Hnot.
  rewrite (run_fetched R w Hfetch). cbn.
  unfold selection_after, notifications, keeps, autoSelect.
  apply truthy_nonempty in Hne. apply existsb_not_contains in Hnot.
  rewrite Hne, Hnot. cbn. split; [reflexivity|].
  by intros c ->.
Qed.

End Fetch.

(** C1, as stated, fails on a list with two defaults and no prior
    selection: neither exactly one credential is flagged nor has the
    list exactly one entry, so the stated selection is empty, but the
    component selects the first default. *)
Lemma auto_select_spec_refuted :
  ~ contains two_defaults ""
  /\ length (List.filter Credential.isDefault two_defaults) = 2
  /\ length two_defaults = 2
  /\ autoSelect_spec two_defaults = ""
  /\ selectedId (sample_run (ok_response two_defaults) "") = "a".
Proof.
  split; [by apply existsb_not_contains|]. by vm_compute.
Qed.

(** The policy on a one-entry list with a stale selection. *)
Lemma fetch_auto_selects_witness :
  ~ contains [cred "a" false] "zz"
  /\ selectedId (sample_run (ok_response [cred "a" false]) "zz") = "a".
Proof.
  assert (~ contains [cred "a" false] "zz") as Hnot
    by (by apply existsb_not_contains).
  split; [exact Hnot|].
  destruct (fetch_auto_selects sample_serviceIdFromScopes
              sample_providerIdFromServiceId
              (sample_fetch (ok_response [cred "a" false]))
              (sample_props None) [cred "a" false] (sample_world "zz")
              eq_refl Hnot)
    as (_ & Hsingle & _).
  apply (Hsingle (ltac:(by repeat constructor)) (cred "a" false) eq_refl).
Defined.

(** C2, as stated, fails when the prior selection is the empty string
    and a fetched credential has the empty id: the selection appears in
    the list, yet the default is selected and [onChange] is called. *)
Lemma keep_selection_refuted :
  contains empty_id_list ""
  /\ selectedId (sample_run (ok_response empty_id_list) "") = "b"
  /\ onChange_calls (sample_run (ok_response empty_id_list) "") = ["b"].
Proof.
  split; [by apply existsb_contains|]. by vm_compute.
Qed.

(** A selection that is still offered is kept silently. *)
Lemma fetch_keeps_valid_selection_witness :
  selectedId (sample_run (ok_response two_defaults) "b") = "b"
  /\ onChange_calls (sample_run (ok_response two_defaults) "b") = [].
Proof.
  apply (fetch_keeps_valid_selection sample_serviceIdFromScopes
           sample_providerIdFromServiceId
           (sample_fetch (ok_response two_defaults))
           (sample_props None) two_defaults (sample_world "b"));
    [reflexivity | discriminate | by apply existsb_contains].
Defined.

(** The invariant after a fetch that replaces a stale selection. *)
Lemma fetch_selection_invariant_witness :
  credentials (sample_run (ok_response two_defaults) "zz") = two_defaults
  /\ (selectedId (sample_run (ok_response two_defaults) "zz") = ""
      \/ contains (credentials (sample_run (ok_response two_defaults) "zz"))
           (selectedId (sample_run (ok_response two_defaults) "zz"))).
Proof.
  apply (fetch_selection_invariant sample_serviceIdFromScopes
           sample_providerIdFromServiceId
           (sample_fetch (ok_response two_defaults))
           (sample_props None) two_defaults (sample_world "zz")).
  reflexivity.
Defined.

(** C4, as stated, fails on a non-OK response: nothing is logged. *)
Lemma failure_logging_refuted :
  FetchFailure not_ok_response
  /\ console_errors (sample_run not_ok_response "a") = [].
Proof.
  split; [by apply NotOk | by vm_compute].
Qed.

(** A rejected request is logged and changes nothing else. *)
Lemma fetch_failure_atomic_witness :
  selectedId (sample_run (Throw "Failed to fetch") "a") = "a"
  /\ console_errors (sample_run (Throw "Failed to fetch") "a")
     = ["Error fetching credentials: Failed to fetch"].
Proof.
  destruct (fetch_failure_atomic sample_serviceIdFromScopes
              sample_providerIdFromServiceId
              (sample_fetch (Throw "Failed to fetch"))
              (sample_props None) (sample_world "a")
              (RequestRejected "Failed to fetch"))
    as (Hsel & _ & _ & Hlog & _).
  split; [exact Hsel | exact (Hlog "Failed to fetch" eq_refl)].
Defined.

(** The two calls of one fetch: the reset, then the only credential. *)
Lemma fetch_reset_notifies_first_witness :
  onChange_calls (sample_run (ok_response [cred "a" false]) "zz")
  = [""; "a"].
Proof.
  destruct (fetch_reset_notifies_first sample_serviceIdFromScopes
              sample_providerIdFromServiceId
              (sample_fetch (ok_response [cred "a" false]))
              (sample_props None) [cred "a" false] (sample_world "zz"))
    as [Hcalls _];
    [reflexivity | discriminate | by apply existsb_not_contains |].
  exact Hcalls.
Defined.

End FetchProps.

(** * Properties of [getServiceId] *)

Module ServiceIdProps.
Import Js CredentialSelector FetchSpec.

(** C7, as stated, fails when the override supplied is the empty
    string: the registry's answer is returned instead of it. *)
Lemma verbatim_override_refuted :
  serviceId (sample_props (Some "")) = Some ""
  /\ getServiceId sample_serviceIdFromScopes (sample_props (Some ""))
     = "google".
Proof. split; reflexivity. Qed.

(** C7, as amended: the service id is a function of provider, required
    scopes and override alone, whatever the other props are; a
    non-empty override is returned verbatim, and with no override or an
    empty one the result is the registry's scope-to-service answer for
    the provider and scopes. *)
Theorem getServiceId_deterministic
    (getServiceIdFromScopes : string -> list string -> string)
    (p1 p2 : Props) :
  provider p1 = provider p2 ->
  requiredScopes p1 = requiredScopes p2 ->
  serviceId p1 = serviceId p2 ->
  getServiceId getServiceIdFromScopes p1
  = getServiceId getServiceIdFromScopes p2
  /\ (forall s, serviceId p1 = Some s -> s <> "" ->
      getServiceId getServiceIdFromScopes p1 = s)
  /\ (serviceId p1 = None \/ serviceId p1 = Some "" ->
      getServiceId getServiceIdFromScopes p1
      = getServiceIdFromScopes (provider p1) (requiredScopes p1)).
Proof.
  intros Hprovider Hscopes Hservice. unfold getServiceId.
  rewrite Hprovider, Hscopes, Hservice. split; [reflexivity|].
  rewrite <- Hservice, <- Hprovider, <- Hscopes. split.
  - intros s -> Hne.
    apply JsFacts.truthy_nonempty in Hne. by rewrite Hne.
  - intros [-> | ->]; reflexivity.
Qed.

(** Two renders that differ in value, label and disabled only. *)
Lemma getServiceId_deterministic_witness :
  getServiceId sample_serviceIdFromScopes
    {| value := "a"; provider := "google"; requiredScopes := ["sheets.read"];
       label := "Select credential"; disabled := false;
       serviceId := Some "sheets" |}
  = getServiceId sample_serviceIdFromScopes
      {| value := "b"; provider := "google";
         requiredScopes := ["sheets.read"];
         label := "Pick an account"; disabled := true;
         serviceId := Some "sheets" |}.
Proof.
  exact (proj1 (getServiceId_deterministic sample_serviceIdFromScopes
           {| value := "a"; provider := "google";
              requiredScopes := ["sheets.read"];
              label := "Select credential"; disabled := false;
              serviceId := Some "sheets" |}
           {| value := "b"; provider := "google";
              requiredScopes := ["sheets.read"];
              label := "Pick an account"; disabled := true;
              serviceId := Some "sheets" |}
           eq_refl eq_refl eq_refl)).
Defined.

End ServiceIdProps.

(** * Properties of the provider name and icon lookup *)

Module LookupProps.
Import Js JsFacts CredentialSelector LookupSpec.

Lemma substring_none (n : nat) (s : string) : String.substring n 0 s = "".
Proof. revert s. induction n as [|n IH]; intros [|c s]; cbn; auto. Qed.

Lemma substring_all (s : string) :
  String.substring 0 (String.length s) s = s.
Proof. induction s as [|c s IH]; cbn; [reflexivity | by rewrite IH]. Qed.

Lemma charAt0_substring (w : string) : charAt0 w = String.substring 0 1 w.
Proof. destruct w as [|c w]; cbn; [reflexivity|]. by rewrite substring_none. Qed.

Lemma slice_from_substring (w : string) :
  slice_from 1 w = String.substring 1 (String.length w - 1) w.
Proof.
  destruct w as [|c w]; cbn; [reflexivity|].
  rewrite Nat.sub_0_r, substring_all. by destruct w.
Qed.

Lemma append_nonempty_l (a b : string) : a <> "" -> a +:+ b <> "".
Proof. by destruct a. Qed.

Section Lookup.
Variable Element : Type.
Variable ExternalLink : string -> Element.
Variable toUpperCase : string -> string.
Variable OAUTH_PROVIDERS : gmap string (Config.t Element).
Variable parseProvider : string -> Result ParsedProvider.
Variable getServiceByProviderAndId :
  string -> string -> Result (Service.t Element).
Variable getServiceIdFromScopes : string -> list string -> string.
Variable props : Props.

Local Abbreviation name_of :=
  (getProviderName Element toUpperCase OAUTH_PROVIDERS parseProvider
     getServiceByProviderAndId getServiceIdFromScopes props).
Local Abbreviation icon_of :=
  (getProviderIcon Element ExternalLink OAUTH_PROVIDERS parseProvider).
Local Abbreviation name_spec :=
  (getProviderName_spec Element toUpperCase OAUTH_PROVIDERS parseProvider
     getServiceByProviderAndId getServiceIdFromScopes props).

Lemma capitalize_title_word (w : string) :
  capitalize toUpperCase w = title_word toUpperCase w.
Proof.
  unfold capitalize, title_word.
  by rewrite charAt0_substring, slice_from_substring.
Qed.

Lemma capitalize_title_case (p : string) :
  join " " (map (capitalize toUpperCase) (split "-" p))
  = title_case toUpperCase p.
Proof.
  unfold title_case. f_equal. apply map_ext. apply capitalize_title_word.
Qed.

Lemma capitalize_nonempty (part : string) :
  upper_nonempty toUpperCase ->
  part <> "" -> capitalize toUpperCase part <> "".
Proof.
  intros Hupper Hpart. unfold capitalize. apply append_nonempty_l.
  apply Hupper. by destruct part.
Qed.

Lemma title_nonempty (p : string) :
  upper_nonempty toUpperCase ->
  p <> "" ->
  join " " (map (capitalize toUpperCase) (split "-" p)) <> "".
Proof.
  intros Hupper Hp.
  destruct (split "-" p) as [|part [|part' parts]] eqn:Hsplit.
  - by apply split_nonempty in Hsplit.
  - apply split_single in Hsplit as ->. cbn.
    by apply capitalize_nonempty.
  - cbn [map join]. apply append_nonempty_r. discriminate.
Qed.

Lemma find_answers
    (p : string) (services : list (string * Service.t Element)) :
  List.find
    (fun '(key, service) =>
       String.eqb key (service_segment p)
       || String.eqb key p
       || String.eqb (Service.providerId service) p)
    services
  = List.find (fun entry => bool_decide (answers Element p entry))
      services.
Proof.
  induction services as [|[key service] services IH]; [reflexivity|].
  cbn [List.find]. rewrite IH.
  assert (String.eqb key (service_segment p)
          || String.eqb key p
          || String.eqb (Service.providerId service) p
          = bool_decide (answers Element p (key, service))) as ->;
    [|reflexivity].
  unfold answers. cbn [fst snd].
  destruct (String.eqb_spec key (service_segment p)) as [Hk|Hk];
    destruct (String.eqb_spec key p) as [Hp|Hp];
    destruct (String.eqb_spec (Service.providerId service) p) as [Hi|Hi];
    cbn; symmetry;
    first [ apply bool_decide_eq_true_2; tauto
          | apply bool_decide_eq_false_2; tauto ].
Qed.

Lemma service_segment_key (p : string) :
  match split "-" p !! 1%nat with
  | Some part => if truthy part then part else ""
  | None => ""
  end = service_segment p.
Proof.
  unfold service_segment.
  destruct (split "-" p !! 1%nat) as [part|]; [|reflexivity].
  cbn. unfold truthy. by destruct (String.eqb_spec part "").
Qed.



(** C6: the lookups are not total. On a base provider that is not
    registered but is a name [OAUTH_PROVIDERS] inherits from
    [Object.prototype], the icon lookup throws, and when moreover there
    is no exact match and the inherited value is [Object.prototype]
    itself (['__proto__']), the name lookup returns [undefined]. *)
Theorem lookup_fails_on_inherited_base
    (p : string) (parsed : ParsedProvider) (v : Inherited) :
  parseProvider p = Return parsed ->
  OAUTH_PROVIDERS !! baseProvider parsed = None ->
  object_prototype (baseProvider parsed) = Some v ->
  icon_of p = Throw "TypeError"
  /\ (exact_match Element getServiceByProviderAndId getServiceIdFromScopes
        props p = None ->
      v = InheritedPrototype ->
      name_of p = Return None).
Proof.
  intros Hparsed Hbase Hproto. split.
  - unfold getProviderIcon, get_property. by rewrite Hparsed, Hbase, Hproto.
  - intros Hexact ->. unfold exact_match in Hexact.
    unfold getProviderName, getProviderName_parse, get_property.
    destruct (getServiceByProviderAndId p _) as [service|e]; [discriminate|].
    rewrite Hparsed. cbn zeta. rewrite Hbase, Hproto.
    by destruct (includes "-" p).
Qed.

(** X22: for every provider id whose base provider is registered or at
    least not an inherited name, the name lookup is the ordered fallback
    chain: the exact (provider, service) match; else, for a compound id,
    the base provider's service that answers by key, by full id or by
    provider id field; else the base provider's display name; else the
    title-cased segments of the raw provider id. *)
Theorem registered_name_chain (p : string) :
  base_not_inherited Element OAUTH_PROVIDERS parseProvider p ->
  name_of p = Return (Some (name_spec p)).
Proof.
  intros Hplain.
  unfold getProviderName, getProviderName_spec, strategies.
  cbn [first_match]. unfold exact_match.
  destruct (getServiceByProviderAndId p _) as [service|e];
    [reflexivity|].
  unfold getProviderName_parse, compound_service, base_name, base_config.
  rewrite capitalize_title_case.
  destruct (parseProvider p) as [parsed|e'] eqn:Hparsed; cbn zeta.
  2: { by destruct (includes "-" p). }
  rewrite service_segment_key. unfold get_property.
  destruct (OAUTH_PROVIDERS !! baseProvider parsed) as [config|] eqn:Hbase.
  - destruct (includes "-" p); cbn; try reflexivity.
    rewrite find_answers.
    by destruct (List.find _ (Config.services config)) as [[key service]|].
  - destruct (Hplain parsed Hparsed) as [[config Hsome]|Hnone];
      [congruence|].
    rewrite Hnone. by destruct (includes "-" p).
Qed.

(** X23: over a registry whose display names are non-empty, for every
    non-empty provider id whose base provider is registered or at least
    not an inherited name, the name lookup returns a non-empty string,
    and the icon lookup returns an icon exactly when [parseProvider]
    returns. *)
Theorem registered_lookup_total (p : string) :
  registry_named Element OAUTH_PROVIDERS getServiceByProviderAndId ->
  upper_nonempty toUpperCase ->
  base_not_inherited Element OAUTH_PROVIDERS parseProvider p ->
  p <> "" ->
  (exists n, name_of p = Return (Some n) /\ n <> "")
  /\ ((exists icon, icon_of p = Return icon) <->
      (exists parsed, parseProvider p = Return parsed)).
Proof.
  intros [Hservice Hconfig] Hupper Hplain Hp. split.
  - unfold getProviderName.
    destruct (getServiceByProviderAndId p _) as [service|e] eqn:Hexact.
    { exists (Service.name service). split; [reflexivity|].
      by apply (Hservice _ _ _ Hexact). }
    unfold getProviderName_parse, get_property.
    destruct (parseProvider p) as [parsed|e'] eqn:Hparsed.
    2: { eexists. split; [reflexivity|]. by apply title_nonempty. }
    cbn zeta.
    destruct (OAUTH_PROVIDERS !! baseProvider parsed) as [config|]
      eqn:Hbase.
    + destruct (Hconfig _ _ Hbase) as [Hname Hservices].
      destruct (includes "-" p).
      * destruct (List.find _ (Config.services config))
          as [[key service]|] eqn:Hfind.
        -- exists (Service.name service). split; [reflexivity|].
           apply find_some in Hfind as [Hin _].
           by apply (Hservices key service).
        -- by exists (Config.name config).
      * by exists (Config.name config).
    + destruct (Hplain parsed Hparsed) as [[config Hsome]|Hnone];
        [congruence|].
      rewrite Hnone.
      destruct (includes "-" p); cbn;
        (eexists; split; [reflexivity|]; by apply title_nonempty).
  - unfold getProviderIcon, get_property.
    destruct (parseProvider p) as [parsed|e'] eqn:Hparsed.
    2: { split; [by intros [icon ?] | by intros [parsed ?]]. }
    split; [by exists parsed | intros _].
    destruct (OAUTH_PROVIDERS !! baseProvider parsed) as [config|]
      eqn:Hbase.
    + destruct (if includes "-" p then _ else _); by eexists.
    + destruct (Hplain parsed Hparsed) as [[config Hsome]|Hnone];
        [congruence|].
      rewrite Hnone. by eexists.
Qed.

End Lookup.

Lemma sample_registry_named :
  registry_named string sample_providers sample_getService.
Proof.
  split.
  - intros p sid service. unfold sample_getService.
    destruct (_ && _); [|discriminate]. by intros [= <-].
  - intros base config Hbase. unfold sample_providers in Hbase.
    apply lookup_singleton_Some in Hbase as [_ <-].
    split; [discriminate|].
    intros key service [[= _ <-]|[]]. discriminate.
Qed.

Lemma sample_upper_nonempty : upper_nonempty sample_toUpperCase.
Proof. by intros [|c s] Hs. Qed.


(** The icon of ["constructor"] and the name of ["__proto__"] over the
    sample registry. *)
Lemma lookup_fails_on_inherited_base_witness :
  getProviderIcon string sample_ExternalLink sample_providers
    sample_parseProvider "constructor"
  = Throw "TypeError"
  /\ getProviderName string sample_toUpperCase sample_providers
       sample_parseProvider sample_getService
       FetchSpec.sample_serviceIdFromScopes (FetchSpec.sample_props None)
       "__proto__"
     = Return None.
Proof.
  split.
  - exact (proj1 (lookup_fails_on_inherited_base string sample_ExternalLink
                    sample_toUpperCase sample_providers sample_parseProvider
                    sample_getService FetchSpec.sample_serviceIdFromScopes
                    (FetchSpec.sample_props None) "constructor"
                    {| baseProvider := "constructor" |}
                    (InheritedFunction "Object") eq_refl eq_refl eq_refl)).
  - exact (proj2 (lookup_fails_on_inherited_base string sample_ExternalLink
                    sample_toUpperCase sample_providers sample_parseProvider
                    sample_getService FetchSpec.sample_serviceIdFromScopes
                    (FetchSpec.sample_props None) "__proto__"
                    {| baseProvider := "__proto__" |}
                    InheritedPrototype eq_refl eq_refl eq_refl)
             eq_refl eq_refl).
Defined.

Lemma sample_base_not_inherited :
  base_not_inherited string sample_providers sample_parseProvider
    "google-sheets".
Proof. intros parsed [= <-]. left. by eexists. Qed.

(** The name of ["google-sheets"] over the sample registry. *)
Lemma registered_name_chain_witness :
  getProviderName string sample_toUpperCase sample_providers
    sample_parseProvider sample_getService
    FetchSpec.sample_serviceIdFromScopes (FetchSpec.sample_props None)
    "google-sheets"
  = Return (Some "Google Sheets").
Proof.
  exact (registered_name_chain string sample_ExternalLink
           sample_toUpperCase sample_providers
           sample_parseProvider sample_getService
           FetchSpec.sample_serviceIdFromScopes (FetchSpec.sample_props None)
           "google-sheets" sample_base_not_inherited).
Defined.

(** The lookups of ["google-sheets"] over the sample registry. *)
Lemma registered_lookup_total_witness :
  exists n,
    getProviderName string sample_toUpperCase sample_providers
      sample_parseProvider sample_getService
      FetchSpec.sample_serviceIdFromScopes (FetchSpec.sample_props None)
      "google-sheets" = Return (Some n)
    /\ n <> "".
Proof.
  refine (proj1 (registered_lookup_total string sample_ExternalLink
                   sample_toUpperCase sample_providers sample_parseProvider
                   sample_getService FetchSpec.sample_serviceIdFromScopes
                   (FetchSpec.sample_props None) "google-sheets"
                   sample_registry_named sample_upper_nonempty
                   sample_base_not_inherited _)).
  discriminate.
Defined.

End LookupProps.

(** * Properties of the Agent block's tool resolver *)

Module AgentProps.
Import Js AgentBlock AgentSpec.

Lemma effective_model_truthy (params : gmap string Value) :
  truthy_value
    (if truthy_value (get_model params) then get_model params
     else Str "gpt-4o") = true.
Proof. by destruct (truthy_value (get_model params)) eqn:H. Qed.

Lemma effective_model_key (params : gmap string Value) :
  to_string
    (if truthy_value (get_model params) then get_model params
     else Str "gpt-4o") = effective_model params.
Proof.
  unfold effective_model, get_model.
  destruct (params !! "model") as [v|]; [|reflexivity].
  by destruct (truthy_value v).
Qed.

Lemma inherited_key_nonempty (key : string) (v : Inherited) :
  object_prototype key = Some v -> key <> "".
Proof. by intros Hv ->. Qed.

(** C9: the resolver does not throw for every model that is not a key of
    [MODEL_TOOLS]. When [params.model] is a name the table inherits from
    [Object.prototype], such as ['constructor'], and the table has no
    entry of its own under it, the resolver returns the inherited value
    as the tool. *)
Theorem tool_returns_inherited
    (MODEL_TOOLS : gmap string string) (params : gmap string Value)
    (model : string) (v : Inherited) :
  params !! "model" = Some (Str model) ->
  MODEL_TOOLS !! model = None ->
  object_prototype model = Some v ->
  effective_model params = model
  /\ tool MODEL_TOOLS params = Return (ToolInherited v).
Proof.
  intros Hmodel Hkey Hproto.
  pose proof (inherited_key_nonempty model v Hproto) as Hne.
  apply JsFacts.truthy_nonempty in Hne.
  assert (effective_model params = model) as Heff.
  { unfold effective_model. rewrite Hmodel. cbn. by rewrite Hne. }
  split; [exact Heff|].
  unfold tool. rewrite effective_model_truthy, effective_model_key, Heff.
  cbn. unfold get_property. by rewrite Hkey, Hproto.
Qed.

(** The model ['constructor'] against the sample table. *)
Lemma tool_returns_inherited_witness :
  sample_tools !! "constructor" = None
  /\ tool sample_tools {[ "model" := Str "constructor" ]}
     = Return (ToolInherited (InheritedFunction "Object")).
Proof.
  split; [reflexivity|].
  refine (proj2 (tool_returns_inherited sample_tools
                   {[ "model" := Str "constructor" ]} "constructor"
                   (InheritedFunction "Object") _ _ _)); reflexivity.
Defined.

Section Tool.
Variable MODEL_TOOLS : gmap string string.
Hypothesis Hnamed : tools_named MODEL_TOOLS.

(** The resolver in closed form: a property lookup of the effective
    model. *)
Lemma tool_lookup (params : gmap string Value) :
  tool MODEL_TOOLS params =
    match get_property MODEL_TOOLS (effective_model params) with
    | Own t => Return (ToolId t)
    | Inherit v => Return (ToolInherited v)
    | Absent =>
        Throw ("Invalid model selected: " +:+ effective_model params)
    end.
Proof.
  unfold tool. rewrite effective_model_truthy, effective_model_key. cbn.
  unfold get_property.
  destruct (MODEL_TOOLS !! effective_model params) as [t|] eqn:Ht.
  - apply Hnamed in Ht. apply JsFacts.truthy_nonempty in Ht.
    by rewrite Ht.
  - by destruct (object_prototype (effective_model params)).
Qed.

(** X21: the resolver reads [MODEL_TOOLS[model]] for the effective
    model, which is ['gpt-4o'] when [params.model] is absent or falsy;
    it never throws 'No model selected'; it throws exactly when the
    effective model is neither a key of the table nor a name the table
    inherits, returns the table's tool id for a key, and returns the
    inherited value for an inherited name. *)
Theorem tool_resolution_table (params : gmap string Value) :
  (truthy_value (get_model params) = false ->
   effective_model params = "gpt-4o"
   /\ tool MODEL_TOOLS params
      = tool MODEL_TOOLS (<["model" := Str "gpt-4o"]> params))
  /\ tool MODEL_TOOLS params <> Throw "No model selected"
  /\ (MODEL_TOOLS !! effective_model params = None
      /\ object_prototype (effective_model params) = None <->
      exists e, tool MODEL_TOOLS params = Throw e)
  /\ (forall t, MODEL_TOOLS !! effective_model params = Some t ->
      tool MODEL_TOOLS params = Return (ToolId t))
  /\ (forall v,
      MODEL_TOOLS !! effective_model params = None ->
      object_prototype (effective_model params) = Some v ->
      tool MODEL_TOOLS params = Return (ToolInherited v)).
Proof.
  rewrite !tool_lookup. unfold get_property.
  split; [intros Hfalsy|].
  { assert (effective_model params = "gpt-4o") as ->.
    { unfold effective_model, get_model in *.
      destruct (params !! "model") as [v|]; [|reflexivity].
      by rewrite Hfalsy. }
    split; [reflexivity|].
    unfold effective_model. by rewrite lookup_insert_eq. }
  destruct (MODEL_TOOLS !! effective_model params) as [t|];
    [|destruct (object_prototype (effective_model params)) as [v|]].
  - repeat match goal with |- _ /\ _ => split | |- _ <-> _ => split end;
      try done.
    + by intros [? ?].
    + by intros [e ?].
    + by intros t' [= ->].
  - repeat match goal with |- _ /\ _ => split | |- _ <-> _ => split end;
      try done.
    + by intros [? ?].
    + by intros [e ?].
    + by intros v' _ [= ->].
  - repeat match goal with |- _ /\ _ => split | |- _ <-> _ => split end;
      try done.
    intros _. by eexists.
Qed.

End Tool.

Lemma sample_tools_named : tools_named sample_tools.
Proof.
  intros model t Ht. unfold sample_tools in Ht.
  apply lookup_singleton_Some in Ht as [_ <-]. discriminate.
Qed.

(** The default model resolves; an unknown one is reported as invalid. *)
Lemma tool_resolution_table_witness :
  tool sample_tools ∅ = Return (ToolId "openai_chat")
  /\ tool sample_tools {[ "model" := Str "gpt-5" ]}
     <> Throw "No model selected".
Proof.
  destruct (tool_resolution_table sample_tools sample_tools_named ∅)
    as (_ & _ & _ & Hown & _).
  destruct (tool_resolution_table sample_tools sample_tools_named
              {[ "model" := Str "gpt-5" ]})
    as (_ & Hnever & _).
  split; [by apply Hown | exact Hnever].
Defined.

End AgentProps.

(** * Properties of the code editor's drop handler *)

Module CodeProps.
Import Js Eff Code CodeSpec.

Lemma chars_append (a b : string) : chars (a +:+ b) = chars a ++ chars b.
Proof.
  unfold chars. induction a as [|c a IH]; [reflexivity|].
  change (String c a +:+ b) with (String c (a +:+ b)).
  cbn. f_equal. exact IH.
Qed.

Lemma chars_length (s : string) : length (chars s) = String.length s.
Proof.
  unfold chars. induction s as [|c s IH]; [reflexivity|].
  cbn. f_equal. exact IH.
Qed.

Lemma chars_slice_to (n : nat) (s : string) :
  chars (slice_to n s) = take n (chars s).
Proof.
  unfold chars. revert s.
  induction n as [|n IH]; intros [|c s]; try reflexivity.
  cbn. f_equal. apply IH.
Qed.

Lemma chars_slice_from (n : nat) (s : string) :
  chars (slice_from n s) = drop n (chars s).
Proof.
  unfold chars. revert s.
  induction n as [|n IH]; intros [|c s]; try reflexivity.
  cbn. apply IH.
Qed.

Lemma delete_inserted {A} (l1 l2 : list A) (x : A) :
  delete (length l1) (l1 ++ x :: l2) = l1 ++ l2.
Proof.
  induction l1 as [|y l1 IH]; [reflexivity|].
  cbn. f_equal. exact IH.
Qed.

(** A drop that is accepted, in closed form. *)
Lemma run_accepted (w : World) (src : option string) (sel : option nat) :
  code (run_handleDrop
          (Return (JsonValue (Some "connectionBlock") src)) sel w)
  = let dropPosition := default (String.length (code w)) sel in
    slice_to dropPosition (code w)
    +:+ "<" +:+ slice_from dropPosition (code w).
Proof.
  unfold run_handleDrop, exec, handleDrop, try_catch, try_catch_finally.
  unfold bind, await, get_type, when. cbn.
  destruct src as [id|]; [destruct (truthy id)|]; by destruct sel.
Qed.

(** A drop that is refused leaves the editor as it was, up to the
    error log. *)
Lemma run_refused (w : World) (parsed : Result Json) (sel : option nat) :
  is_connection_drop parsed = false ->
  code (run_handleDrop parsed sel w) = code w
  /\ storeValue (run_handleDrop parsed sel w) = storeValue w.
Proof.
  intros Hrefused.
  unfold run_handleDrop, exec, handleDrop, try_catch, try_catch_finally.
  unfold bind, await, get_type.
  destruct parsed as [[|[type|] src]|e]; cbn; try done.
  cbn in Hrefused. apply String.eqb_neq in Hrefused.
  rewrite bool_decide_eq_false_2; [done|]. by intros [= ?].
Qed.

(** C10: a drop of a ['connectionBlock'] payload at position [p] within
    the code yields the first [p] characters, one ['<'], and the
    remaining characters: the length grows by one and removing the
    inserted character gives the old code back. A payload that is not
    valid JSON or not of type ['connectionBlock'] leaves the code
    unchanged. *)
Theorem handleDrop_inserts
    (w : World) (p : nat) (src : option string) :
  p <= String.length (code w) ->
  let w' := run_handleDrop
              (Return (JsonValue (Some "connectionBlock") src)) (Some p) w in
  code w' = slice_to p (code w) +:+ "<" +:+ slice_from p (code w)
  /\ chars (code w')
     = take p (chars (code w)) ++ "<"%char :: drop p (chars (code w))
  /\ length (take p (chars (code w))) = p
  /\ String.length (code w') = String.length (code w) + 1
  /\ chars (code w') !! p = Some "<"%char
  /\ delete p (chars (code w')) = chars (code w)
  /\ (forall parsed sel,
      is_connection_drop parsed = false ->
      code (run_handleDrop parsed sel w) = code w).
Proof.
  intros Hp w'.
  assert (length (take p (chars (code w))) = p) as Hlen.
  { rewrite length_take, chars_length. lia. }
  assert (chars (code w')
          = take p (chars (code w)) ++ "<"%char :: drop p (chars (code w)))
    as Hchars.
  { unfold w'. rewrite run_accepted. cbn.
    by rewrite !chars_append, chars_slice_to, chars_slice_from. }
  repeat split.
  - unfold w'. by rewrite run_accepted.
  - exact Hchars.
  - exact Hlen.
  - rewrite <- !chars_length, Hchars, length_app. cbn.
    rewrite length_take, length_drop, chars_length. lia.
  - rewrite Hchars. apply list_lookup_middle. by rewrite Hlen.
  - rewrite Hchars.
    pose proof (delete_inserted (take p (chars (code w)))
                  (drop p (chars (code w))) "<"%char) as Hdel.
    rewrite Hlen in Hdel. rewrite Hdel. apply take_drop.
  - intros parsed sel Hrefused. by apply run_refused.
Qed.

(** A drop in the middle of ["abcd"]. *)
Lemma handleDrop_inserts_witness :
  code (run_handleDrop
          (Return (JsonValue (Some "connectionBlock") (Some "block-1")))
          (Some 2) (sample_world "abcd"))
  = "ab<cd".
Proof.
  exact (proj1 (handleDrop_inserts (sample_world "abcd") 2
                  (Some "block-1") (le_S _ _ (le_S _ _ (le_n 2))))).
Defined.

End CodeProps.

(** * Further properties of the credential selector *)

Module SelectorProps.
Import Js JsFacts Eff CredentialSelector FetchSpec FetchProps SelectorHandlers.

(** Every outcome of the request is a credential list or a failure. *)
Lemma outcome_cases (o : Result Response) :
  (exists R, o = ok_response R) \/ FetchFailure o.
Proof.
  destruct o as [[[] [[R]|e]]|e].
  - left. by exists R.
  - right. by apply (BodyRejected _ e).
  - right. by apply NotOk.
  - right. by apply NotOk.
  - right. apply RequestRejected.
Qed.

Lemma autoSelected_id_contains (R : list Credential) (c : Credential) :
  autoSelected R = Some c -> contains R (Credential.id c).
Proof.
  intros Hpick. exists c. split; [|reflexivity].
  by apply (autoSelected_contains R c).
Qed.

(** A kept selection is kept again, and a replaced one is the policy's
    pick. *)
Lemma selection_after_stable (R : list Credential) (S : string) :
  keeps R (selection_after R S) = true
  \/ (keeps R (selection_after R S) = false
      /\ selection_after R S = autoSelect R).
Proof.
  unfold selection_after.
  destruct (keeps R S) eqn:HS; [by left|].
  destruct (keeps R (autoSelect R)); [by left | by right].
Qed.

Lemma keeps_autoSelected (R : list Credential) (c : Credential) :
  autoSelected R = Some c -> Credential.id c <> "" ->
  keeps R (Credential.id c) = true.
Proof.
  intros Hpick Hne. unfold keeps. apply andb_true_iff. split.
  - by apply truthy_nonempty.
  - apply existsb_contains. by apply autoSelected_id_contains.
Qed.

Lemma nonempty_ids_elem (R : list Credential) (c : Credential) :
  nonempty_ids R -> c ∈ R -> Credential.id c <> "".
Proof.
  unfold nonempty_ids. rewrite Forall_forall. intros Hall Hin. by apply Hall.
Qed.

Lemma find_id_contains (R : list Credential) (S : string) :
  contains R S ->
  exists c,
    List.find (fun cred => String.eqb (Credential.id cred) S) R = Some c
    /\ c ∈ R /\ Credential.id c = S.
Proof.
  intros Hin. apply existsb_contains in Hin.
  destruct (List.find _ R) as [c|] eqn:Hfind.
  - exists c. apply find_some in Hfind as [Hc Hid].
    split; [reflexivity|]. split; [by apply list_elem_of_In|].
    by apply String.eqb_eq.
  - apply existsb_exists in Hin as (c & Hc & Hid).
    by rewrite (find_none _ _ Hfind c Hc) in Hid.
Qed.

Section Selector.
Variable getServiceIdFromScopes : string -> list string -> string.
Variable getProviderIdFromServiceId : string -> string.
Variable fetch : string -> Result Response.
Variable props : Props.

Local Abbreviation run :=
  (run_fetchCredentials getServiceIdFromScopes
     getProviderIdFromServiceId fetch props).
Local Abbreviation outcome :=
  (fetch (credentials_url
            (getProviderId getServiceIdFromScopes
               getProviderIdFromServiceId props))).

(** X1: [fetchCredentials] never rejects, whatever the request does;
    when it settles the loading flag is off and the popover and the
    OAuth modal are as they were. *)
Theorem fetch_settles (w : World) :
  (fetchCredentials getServiceIdFromScopes getProviderIdFromServiceId
     fetch props (selectedId w) w).1 = Return tt
  /\ isLoading (run w) = false
  /\ open (run w) = open w
  /\ showOAuthModal (run w) = showOAuthModal w.
Proof.
  split.
  - unfold fetchCredentials, try_catch_finally, bind, await; cbv zeta.
    destruct outcome as [[[] [[R]|e]]|e]; cbn; try reflexivity.
    unfold when.
    destruct (truthy (selectedId w));
      destruct (existsb _ R);
      destruct (List.find _ R);
      destruct R as [|c [|c' R']]; reflexivity.
  - destruct (outcome_cases outcome) as [[R HR]|Hfail].
    + by rewrite (run_fetched _ _ _ _ R w HR).
    + by rewrite (run_failed _ _ _ _ w Hfail).
Qed.

(** X2: the parent hears the final selection. The calls [onChange]
    receives during a fetch end with the selection the fetch leaves, and
    when there is none the selection is unchanged; so the effect that
    copies the notified value back into the selection changes nothing. *)
Theorem fetch_notifies_final (w : World) :
  exists calls,
    onChange_calls (run w) = onChange_calls w ++ calls
    /\ match last calls with
       | Some v =>
           selectedId (run w) = v /\ exec (sync_value v) (run w) = run w
       | None => selectedId (run w) = selectedId w
       end.
Proof.
  destruct (outcome_cases outcome) as [[R HR]|Hfail].
  - rewrite (run_fetched _ _ _ _ R w HR). cbn.
    exists (notifications R (selectedId w)). split; [reflexivity|].
    unfold notifications, selection_after, autoSelect.
    destruct (keeps R (selectedId w)) eqn:Hkeep; [reflexivity|].
    destruct (autoSelected R) as [c|];
      destruct (truthy (selectedId w)) eqn:Htruthy; cbn; try done.
    symmetry. by apply not_truthy_empty.
  - rewrite (run_failed _ _ _ _ w Hfail). cbn.
    exists []. by rewrite app_nil_r.
Qed.

(** X3: fetching the same list again changes neither the selection nor
    the cached list, and when every credential has a non-empty id the
    second fetch changes nothing at all: no further [onChange] call. *)
Theorem refetch_idempotent (R : list Credential) (w : World) :
  outcome = ok_response R ->
  selectedId (run (run w)) = selectedId (run w)
  /\ credentials (run (run w)) = credentials (run w)
  /\ (nonempty_ids R -> run (run w) = run w).
Proof.
  intros HR. rewrite (run_fetched _ _ _ _ R (run w) HR).
  rewrite (run_fetched _ _ _ _ R w HR). cbn.
  assert (selection_after R (selection_after R (selectedId w))
          = selection_after R (selectedId w)) as Hsel.
  { destruct (selection_after_stable R (selectedId w)) as [Hk|[Hk Hauto]].
    - unfold selection_after at 1. by rewrite Hk.
    - unfold selection_after at 1. by rewrite Hk. }
  split; [exact Hsel|]. split; [reflexivity|].
  intros Hids. rewrite Hsel.
  assert (notifications R (selection_after R (selectedId w)) = []) as ->.
  { unfold notifications.
    destruct (selection_after_stable R (selectedId w)) as [Hk|[Hk Hauto]];
      rewrite Hk; [reflexivity|].
    rewrite Hauto in *. unfold autoSelect in *.
    destruct (autoSelected R) as [c|] eqn:Hpick; [|reflexivity].
    rewrite keeps_autoSelected in Hk; [discriminate | exact Hpick |].
    apply (nonempty_ids_elem R c Hids). by apply autoSelected_contains. }
  by rewrite app_nil_r.
Qed.


(** X5: after a successful fetch a non-empty selection names a fetched
    credential, and the trigger shows that credential's name; when the
    ids of the list are non-empty, an empty selection shows the label. *)
Theorem trigger_shows_selection (R : list Credential) (w : World) :
  outcome = ok_response R ->
  (selectedId (run w) <> "" ->
   exists c,
     selectedCredential (run w) = Some c
     /\ c ∈ R
     /\ Credential.id c = selectedId (run w)
     /\ trigger_text props (run w) = Credential.name c)
  /\ (nonempty_ids R ->
      selectedId (run w) = "" ->
      selectedCredential (run w) = None
      /\ trigger_text props (run w) = label props).
Proof.
  intros HR. rewrite (run_fetched _ _ _ _ R w HR).
  unfold trigger_text, selectedCredential. cbn. split.
  - intros Hne.
    assert (contains R (selection_after R (selectedId w))) as Hcontains.
    { destruct (selection_after_stable R (selectedId w)) as [Hk|[Hk Hauto]].
      - apply existsb_contains. unfold keeps in Hk.
        by apply andb_true_iff in Hk as [_ ?].
      - rewrite Hauto in *. unfold autoSelect in *.
        destruct (autoSelected R) as [c|] eqn:Hpick; [|done].
        by apply autoSelected_id_contains. }
    destruct (find_id_contains R _ Hcontains) as (c & Hfind & Hin & Hid).
    exists c. by rewrite Hfind.
  - intros Hids ->.
    destruct (List.find _ R) as [c|] eqn:Hfind; [|done].
    apply find_some in Hfind as [Hin Hid].
    apply String.eqb_eq in Hid.
    by apply (nonempty_ids_elem R c Hids) in Hid; [|apply list_elem_of_In].
Qed.

(** X6: an empty list clears the component: the selection becomes empty,
    no credential is selected, the trigger shows the label, and
    [onChange] is called, with the empty string, exactly when there was
    a selection to clear. *)
Theorem fetch_empty_list (w : World) :
  outcome = ok_response [] ->
  selectedId (run w) = ""
  /\ credentials (run w) = []
  /\ selectedCredential (run w) = None
  /\ trigger_text props (run w) = label props
  /\ onChange_calls (run w)
     = onChange_calls w ++ (if truthy (selectedId w) then [""] else []).
Proof.
  intros HR. rewrite (run_fetched _ _ _ _ [] w HR).
  unfold trigger_text, selectedCredential. cbn.
  unfold selection_after, notifications, keeps. cbn.
  rewrite andb_false_r. cbn. by rewrite app_nil_r.
Qed.

(** X7: the request is made for one URL only, that of the resolved
    provider id: two networks that answer that URL alike leave the
    component in the same state. *)
Theorem fetch_reads_one_url
    (fetch' : string -> Result Response) (w : World) :
  fetch' (credentials_url
            (getProviderId getServiceIdFromScopes
               getProviderIdFromServiceId props))
  = outcome ->
  run_fetchCredentials getServiceIdFromScopes getProviderIdFromServiceId
    fetch' props w
  = run w.
Proof.
  intros Hsame. unfold run_fetchCredentials, exec, fetchCredentials.
  unfold try_catch_finally, bind, await; cbv zeta. by rewrite Hsame.
Qed.

(** X8: the mount effect fetches once: however often it runs again, the
    component stays as the first run left it. *)
Theorem mount_effect_once (n : nat) (w : World) :
  Nat.iter (S n)
    (mount_effect getServiceIdFromScopes getProviderIdFromServiceId
       fetch props)
    (false, w)
  = (true, run w).
Proof.
  induction n as [|n IH]; [reflexivity|].
  rewrite Nat.iter_succ, IH. reflexivity.
Qed.

(** X9: [handleAddCredential] records the pending connection and opens
    the modal: the four values are saved in order, the saved provider id
    is the registry's provider for the saved service id and the one the
    credentials are fetched for, the modal is shown, the popover closed,
    and selection, cached list and [onChange] are untouched. *)
Theorem add_credential_records (href : string) (p : Page) :
  let p' :=
    exec (handleAddCredential getServiceIdFromScopes
            getProviderIdFromServiceId props href) p in
  exists serviceId providerId,
    saved p'
    = saved p
      ++ [("pending_service_id", StoredString serviceId);
          ("pending_oauth_scopes", StoredList (requiredScopes props));
          ("pending_oauth_return_url", StoredString href);
          ("pending_oauth_provider_id", StoredString providerId)]
    /\ providerId = getProviderIdFromServiceId serviceId
    /\ (forall fetch1 fetch2 w,
          fetch1 (credentials_url providerId)
          = fetch2 (credentials_url providerId) ->
          run_fetchCredentials getServiceIdFromScopes
            getProviderIdFromServiceId fetch1 props w
          = run_fetchCredentials getServiceIdFromScopes
              getProviderIdFromServiceId fetch2 props w)
    /\ showOAuthModal (component p') = true
    /\ open (component p') = false
    /\ selectedId (component p') = selectedId (component p)
    /\ credentials (component p') = credentials (component p)
    /\ onChange_calls (component p') = onChange_calls (component p).
Proof.
  intros p'.
  exists (getServiceId getServiceIdFromScopes props),
    (getProviderId getServiceIdFromScopes getProviderIdFromServiceId props).
  split.
  { unfold p'. cbn. rewrite <- !app_assoc. reflexivity. }
  split; [reflexivity|]. split; [|by repeat split].
  intros fetch1 fetch2 w Hsame.
  unfold run_fetchCredentials, exec, fetchCredentials.
  unfold try_catch_finally, bind, await; cbv zeta. by rewrite Hsame.
Qed.

End Selector.

(** X10: [handleDirectOAuth] never rejects: a sign-in that succeeds
    leaves the component as it was, and one that fails adds its error to
    the log and changes nothing else. *)
Theorem direct_oauth_settles
    (getServiceIdFromScopes : string -> list string -> string)
    (getProviderIdFromServiceId : string -> string)
    (signIn : string -> string -> Result unit)
    (props : Props) (href : string) (w : World) :
  (handleDirectOAuth getServiceIdFromScopes getProviderIdFromServiceId
     signIn props href w).1 = Return tt
  /\ selectedId
       (exec (handleDirectOAuth getServiceIdFromScopes
                getProviderIdFromServiceId signIn props href) w)
     = selectedId w
  /\ console_errors
       (exec (handleDirectOAuth getServiceIdFromScopes
                getProviderIdFromServiceId signIn props href) w)
     = console_errors w
       ++ match signIn
                  (getProviderId getServiceIdFromScopes
                     getProviderIdFromServiceId props) href with
          | Return _ => []
          | Throw e => ["OAuth login error: " +:+ e]
          end.
Proof.
  unfold handleDirectOAuth, exec, try_catch, try_catch_finally, await.
  cbv zeta.
  destruct (signIn _ href) as [[]|e]; cbn; by rewrite ?app_nil_r.
Qed.

Lemma two_defaults_nonempty_ids : nonempty_ids two_defaults.
Proof. by repeat constructor. Qed.

(** A second fetch of the two-defaults list after a stale selection. *)
Lemma refetch_idempotent_witness :
  nonempty_ids two_defaults
  /\ run_fetchCredentials sample_serviceIdFromScopes
       sample_providerIdFromServiceId
       (sample_fetch (ok_response two_defaults)) (sample_props None)
       (sample_run (ok_response two_defaults) "zz")
     = sample_run (ok_response two_defaults) "zz".
Proof.
  split; [exact two_defaults_nonempty_ids|].
  destruct (refetch_idempotent sample_serviceIdFromScopes
              sample_providerIdFromServiceId
              (sample_fetch (ok_response two_defaults))
              (sample_props None) two_defaults (sample_world "zz") eq_refl)
    as (_ & _ & Hsame).
  exact (Hsame two_defaults_nonempty_ids).
Defined.


(** The trigger after a stale selection was replaced by the default. *)
Lemma trigger_shows_selection_witness :
  exists c,
    selectedCredential (sample_run (ok_response two_defaults) "zz") = Some c
    /\ c ∈ two_defaults
    /\ Credential.id c = selectedId (sample_run (ok_response two_defaults) "zz")
    /\ trigger_text (sample_props None)
         (sample_run (ok_response two_defaults) "zz")
       = Credential.name c.
Proof.
  refine (proj1 (trigger_shows_selection sample_serviceIdFromScopes
                   sample_providerIdFromServiceId
                   (sample_fetch (ok_response two_defaults))
                   (sample_props None) two_defaults (sample_world "zz")
                   eq_refl) _).
  discriminate.
Defined.

(** An empty list after a selection. *)
Lemma fetch_empty_list_witness :
  selectedId (sample_run (ok_response []) "a") = ""
  /\ onChange_calls (sample_run (ok_response []) "a") = [""].
Proof.
  destruct (fetch_empty_list sample_serviceIdFromScopes
              sample_providerIdFromServiceId
              (sample_fetch (ok_response []))
              (sample_props None) (sample_world "a") eq_refl)
    as (Hsel & _ & _ & _ & Hcalls).
  split; [exact Hsel | exact Hcalls].
Defined.

(** A network that fails everywhere but at the credentials URL. *)
Lemma fetch_reads_one_url_witness :
  run_fetchCredentials sample_serviceIdFromScopes
    sample_providerIdFromServiceId
    (fun url =>
       if String.eqb url "/api/auth/oauth/credentials?provider=google"
       then ok_response two_defaults
       else Throw "Failed to fetch")
    (sample_props None) (sample_world "zz")
  = sample_run (ok_response two_defaults) "zz".
Proof.
  apply (fetch_reads_one_url sample_serviceIdFromScopes
           sample_providerIdFromServiceId
           (sample_fetch (ok_response two_defaults)) (sample_props None)).
  reflexivity.
Defined.

End SelectorProps.

(** * Further properties of the code editor *)

Module EditorProps.
Import Js JsFacts Eff Code CodeSpec CodeProps CodeHandlers.

Lemma slice_to_all (n : nat) (s : string) :
  String.length s <= n -> slice_to n s = s.
Proof.
  revert n. induction s as [|c s IH]; intros [|n] Hlen; cbn in *;
    try reflexivity; try lia.
  f_equal. apply IH. lia.
Qed.

Lemma slice_from_all (n : nat) (s : string) :
  String.length s <= n -> slice_from n s = "".
Proof.
  revert n. induction s as [|c s IH]; intros [|n] Hlen; cbn in *;
    try reflexivity; try lia.
  apply IH. lia.
Qed.

Lemma append_length (a b : string) :
  String.length (a +:+ b) = String.length a + String.length b.
Proof. by rewrite <- !chars_length, chars_append, length_app. Qed.

(** The state an accepted drop leaves. *)
Lemma run_accepted_state
    (w : World) (src : option string) (sel : option nat) :
  run_handleDrop (Return (JsonValue (Some "connectionBlock") src)) sel w
  = let dropPosition := default (String.length (code w)) sel in
    let newValue :=
      slice_to dropPosition (code w)
      +:+ "<" +:+ slice_from dropPosition (code w) in
    {| code := newValue; storeValue := Some newValue; showTags := true;
       cursorPosition := dropPosition + 1;
       activeSourceBlockId :=
         match src with
         | Some id => if truthy id then Some id else activeSourceBlockId w
         | None => activeSourceBlockId w
         end;
       console_errors := console_errors w |}.
Proof.
  unfold run_handleDrop, exec, handleDrop, try_catch, try_catch_finally.
  unfold bind, await, get_type, when. cbn.
  destruct src as [id|]; [destruct (truthy id)|]; by destruct sel.
Qed.

(** X11: an accepted drop opens the tag dropdown right behind the
    inserted character: the cursor is one past the drop position, the
    character before it is the ['<'], the store holds the new code, and
    the active source block is the payload's when it names one and the
    previous one otherwise. *)
Theorem drop_places_cursor
    (w : World) (src : option string) (sel : option nat) :
  default (String.length (code w)) sel <= String.length (code w) ->
  let w' :=
    run_handleDrop (Return (JsonValue (Some "connectionBlock") src)) sel w in
  cursorPosition w' = default (String.length (code w)) sel + 1
  /\ showTags w' = true
  /\ chars (code w') !! (cursorPosition w' - 1) = Some "<"%char
  /\ storeValue w' = Some (code w')
  /\ activeSourceBlockId w'
     = match src with
       | Some id => if truthy id then Some id else activeSourceBlockId w
       | None => activeSourceBlockId w
       end
  /\ console_errors w' = console_errors w.
Proof.
  intros Hp w'. unfold w'. rewrite run_accepted_state. cbn.
  repeat split.
  rewrite !chars_append, chars_slice_to, chars_slice_from.
  apply list_lookup_middle.
  rewrite length_take, chars_length. lia.
Qed.

(** X12: a drop position beyond the end of the code appends the ['<'],
    and the recorded cursor position then lies beyond the end of the new
    code. *)
Theorem drop_beyond_end
    (w : World) (src : option string) (p : nat) :
  String.length (code w) < p ->
  let w' :=
    run_handleDrop (Return (JsonValue (Some "connectionBlock") src))
      (Some p) w in
  code w' = code w +:+ "<"
  /\ cursorPosition w' = p + 1
  /\ String.length (code w') < cursorPosition w'.
Proof.
  intros Hp w'. unfold w'. rewrite run_accepted_state. cbn.
  rewrite (slice_to_all p (code w)), (slice_from_all p (code w)) by lia.
  repeat split. rewrite !append_length. cbn. lia.
Qed.

(** X13: a refused drop changes nothing the user sees. A payload that
    does not parse, or that is [null], is reported on the console; a
    payload of another type is ignored without a trace. *)
Theorem drop_refused
    (w : World) (parsed : Result Json) (sel : option nat) :
  is_connection_drop parsed = false ->
  let w' := run_handleDrop parsed sel w in
  code w' = code w
  /\ storeValue w' = storeValue w
  /\ showTags w' = showTags w
  /\ cursorPosition w' = cursorPosition w
  /\ activeSourceBlockId w' = activeSourceBlockId w
  /\ console_errors w'
     = console_errors w
       ++ match parsed with
          | Throw e => ["Failed to parse drop data: " +:+ e]
          | Return JsonNull => ["Failed to parse drop data: TypeError"]
          | Return (JsonValue _ _) => []
          end.
Proof.
  intros Hrefused w'. unfold w'.
  unfold run_handleDrop, exec, handleDrop, try_catch, try_catch_finally.
  unfold bind, await, get_type.
  destruct parsed as [[|[type|] src]|e]; cbn; rewrite ?app_nil_r; try done.
  cbn in Hrefused. apply String.eqb_neq in Hrefused.
  rewrite bool_decide_eq_false_2; [|by intros [= ?]].
  cbn. by rewrite ?app_nil_r.
Qed.

Lemma drop_refused_fields
    (w : World) (parsed : Result Json) (sel : option nat) :
  is_connection_drop parsed = false ->
  showTags (run_handleDrop parsed sel w) = showTags w
  /\ activeSourceBlockId (run_handleDrop parsed sel w)
     = activeSourceBlockId w.
Proof.
  intros Hrefused.
  unfold run_handleDrop, exec, handleDrop, try_catch, try_catch_finally.
  unfold bind, await, get_type.
  destruct parsed as [[|[type|] src]|e]; cbn; try done.
  cbn in Hrefused. apply String.eqb_neq in Hrefused.
  rewrite bool_decide_eq_false_2; [done|]. by intros [= ?].
Qed.

Section Editor.
Variable checkTagTrigger : string -> nat -> Trigger.

Lemma step_store_synced (w : World) (e : Event) :
  store_synced w -> store_synced (step checkTagTrigger w e).
Proof.
  intros Hsync. destruct e as [parsed sel|newCode textarea|newValue| |]; cbn.
  - destruct (is_connection_drop parsed) eqn:Hdrop.
    + destruct parsed as [[|[type|] src]|e]; try discriminate.
      cbn in Hdrop. apply String.eqb_eq in Hdrop as ->.
      rewrite run_accepted_state. by right.
    + destruct (run_refused w parsed sel Hdrop) as [Hcode Hstore].
      unfold store_synced. by rewrite Hcode, Hstore.
  - right. unfold exec, onValueChange, bind, when.
    destruct textarea as [pos|]; cbn; [|reflexivity].
    by destruct (show (checkTagTrigger newCode pos)).
  - by right.
  - exact Hsync.
  - unfold sync_store. destruct Hsync as [Hnone|Hsome].
    + rewrite Hnone. left. exact Hnone.
    + rewrite Hsome. by right.
Qed.

Lemma step_no_stale_source (w : World) (e : Event) :
  no_stale_source w -> no_stale_source (step checkTagTrigger w e).
Proof.
  intros Hclean. destruct e as [parsed sel|newCode textarea|newValue| |]; cbn.
  - destruct (is_connection_drop parsed) eqn:Hdrop.
    + destruct parsed as [[|[type|] src]|e]; try discriminate.
      cbn in Hdrop. apply String.eqb_eq in Hdrop as ->.
      rewrite run_accepted_state. by intros ?.
    + pose proof (drop_refused_fields w parsed sel Hdrop) as [Htags Hactive].
      unfold no_stale_source. by rewrite Htags, Hactive.
  - unfold exec, onValueChange, bind, when, no_stale_source.
    destruct textarea as [pos|]; cbn; [|exact Hclean].
    by destruct (show (checkTagTrigger newCode pos)).
  - by intros ?.
  - by intros ?.
  - unfold sync_store. by destruct (storeValue w).
Qed.

Lemma sync_store_noop (w : World) :
  store_synced w -> step checkTagTrigger w SyncStore = w.
Proof.
  destruct w as [code0 store0 tags0 cursor0 active0 errors0].
  unfold store_synced. cbn.
  intros [-> | ->]; reflexivity.
Qed.

(** X14: whatever happens to the editor (drops, edits, tag selections,
    closing the dropdown, the store effect), once the store is in step
    with the code it stays so, no source block stays active while the
    dropdown is hidden, and the store effect never replaces the code on
    display. *)
Theorem editor_invariant (events : list Event) (w : World) :
  store_synced w ->
  no_stale_source w ->
  store_synced (run_events checkTagTrigger w events)
  /\ no_stale_source (run_events checkTagTrigger w events)
  /\ step checkTagTrigger (run_events checkTagTrigger w events) SyncStore
     = run_events checkTagTrigger w events.
Proof.
  revert w. induction events as [|e events IH]; intros w Hsync Hclean.
  - cbn. split; [exact Hsync|]. split; [exact Hclean|].
    by apply sync_store_noop.
  - cbn. apply IH.
    + by apply step_store_synced.
    + by apply step_no_stale_source.
Qed.

End Editor.

(** A drop at position 1 of ["ab"]. *)
Lemma drop_places_cursor_witness :
  cursorPosition
    (run_handleDrop
       (Return (JsonValue (Some "connectionBlock") (Some "block-1")))
       (Some 1) (sample_world "ab"))
  = 2.
Proof.
  refine (proj1 (drop_places_cursor (sample_world "ab") (Some "block-1")
                   (Some 1) _)).
  cbn. lia.
Defined.

(** A drop at position 5 of ["ab"]. *)
Lemma drop_beyond_end_witness :
  code
    (run_handleDrop (Return (JsonValue (Some "connectionBlock") None))
       (Some 5) (sample_world "ab"))
  = "ab<".
Proof.
  refine (proj1 (drop_beyond_end (sample_world "ab") None 5 _)).
  cbn. lia.
Defined.

(** A payload of another type. *)
Lemma drop_refused_witness :
  console_errors
    (run_handleDrop (Return (JsonValue (Some "block") None)) None
       (sample_world "ab"))
  = [].
Proof.
  destruct (drop_refused (sample_world "ab")
              (Return (JsonValue (Some "block") None)) None eq_refl)
    as (_ & _ & _ & _ & _ & Hlog).
  exact Hlog.
Defined.

(** A session from the empty editor. *)
Lemma editor_invariant_witness :
  store_synced (run_events sample_trigger (sample_world "") sample_events)
  /\ no_stale_source
       (run_events sample_trigger (sample_world "") sample_events).
Proof.
  destruct (editor_invariant sample_trigger sample_events (sample_world ""))
    as (Hsync & Hclean & _).
  - by left.
  - by intros _.
  - split; [exact Hsync | exact Hclean].
Defined.

End EditorProps.

(** * Properties of the line-number gutter *)

Module GutterProps.
Import Js JsFacts Eff Gutter.

Lemma fold_sum (heights : list nat) (a : nat) :
  fold_left (fun sum height => sum + height) heights a
  = a + sum_list heights.
Proof.
  revert a. induction heights as [|h heights IH]; intros a; cbn.
  - lia.
  - rewrite IH. lia.
Qed.

Lemma rows_from_length (lineNumber : nat) (heights : list nat) :
  length (rows_from lineNumber heights) = sum_list heights.
Proof.
  revert lineNumber.
  induction heights as [|h heights IH]; intros lineNumber; cbn.
  - reflexivity.
  - by rewrite length_app, length_map, length_seq, IH.
Qed.

Lemma split_length (c : ascii) (s : string) :
  length (split c s) = S (occurrences c s).
Proof.
  induction s as [|d s IH]; cbn; [reflexivity|].
  destruct (Ascii.eqb d c); cbn.
  - by rewrite IH.
  - destruct (split c s) as [|part parts]; cbn in *; [lia | exact IH].
Qed.

Lemma uint_no_dash (d : Decimal.uint) :
  includes "-" (NilEmpty.string_of_uint d) = false.
Proof. induction d; cbn; done. Qed.

Lemma decimal_inj (a b : nat) : decimal a = decimal b -> a = b.
Proof.
  unfold decimal. intros Heq.
  apply DecimalNat.Unsigned.to_uint_inj.
  assert (Some (Nat.to_uint a) = Some (Nat.to_uint b)) as [= ?]; [|done].
  by rewrite <- !NilEmpty.usu, Heq.
Qed.

Lemma append_dash_inj (a b x y : string) :
  includes "-" a = false ->
  includes "-" b = false ->
  a +:+ String "-" x = b +:+ String "-" y ->
  a = b /\ x = y.
Proof.
  revert b. induction a as [|c a IH]; intros [|d b]; cbn; intros Ha Hb Heq.
  - by injection Heq.
  - injection Heq as <- _. by rewrite Ascii.eqb_refl in Hb.
  - injection Heq as -> _. by rewrite Ascii.eqb_refl in Ha.
  - injection Heq as <- Heq.
    destruct (Ascii.eqb c "-"); [discriminate|].
    destruct (IH b Ha Hb Heq) as [-> ->]. done.
Qed.

Lemma key_inj (a b i j : nat) :
  decimal a +:+ "-" +:+ decimal i = decimal b +:+ "-" +:+ decimal j ->
  a = b /\ i = j.
Proof.
  intros Heq.
  destruct (append_dash_inj (decimal a) (decimal b) (decimal i) (decimal j))
    as [Ha Hi]; [apply uint_no_dash | apply uint_no_dash | exact Heq |].
  split; by apply decimal_inj.
Qed.

Lemma rows_from_keys (lineNumber : nat) (heights : list nat) (k : string) :
  k ∈ map key (rows_from lineNumber heights) ->
  exists a i, lineNumber <= a /\ k = decimal a +:+ "-" +:+ decimal i.
Proof.
  revert lineNumber.
  induction heights as [|h heights IH]; intros lineNumber; cbn.
  - by intros ?%elem_of_nil.
  - rewrite map_app, elem_of_app. intros [Hin|Hin].
    + rewrite map_map in Hin. apply list_elem_of_fmap in Hin as (i & -> & _).
      exists lineNumber, i. split; [lia | reflexivity].
    + destruct (IH _ Hin) as (a & i & Hle & ->).
      exists a, i. split; [lia | reflexivity].
Qed.

Lemma rows_from_keys_NoDup (lineNumber : nat) (heights : list nat) :
  NoDup (map key (rows_from lineNumber heights)).
Proof.
  revert lineNumber.
  induction heights as [|h heights IH]; intros lineNumber; cbn.
  - constructor.
  - rewrite map_app. apply NoDup_app. split; [|split].
    + rewrite map_map. cbn. apply NoDup_fmap_2; [|apply NoDup_seq].
      intros i j Heq. by apply key_inj in Heq as [_ ?].
    + intros k Hin Hin'. rewrite map_map in Hin.
      apply list_elem_of_fmap in Hin as (i & -> & _).
      apply rows_from_keys in Hin' as (a & j & Hle & Heq).
      apply key_inj in Heq as [-> _]. lia.
    + apply IH.
Qed.




Section Measure.
Variable offsetHeight : Z -> string -> nat.

(** X15: after the visual lines are measured, the gutter has one height
    per line of the code, a line more than the code has line breaks, and
    [renderLineNumbers] produces as many rows as [lineCount] says; with
    no element to measure nothing changes. *)
Theorem gutter_rows_match_count
    (code : string) (clientWidth : Z) (w : World) :
  length (visualLineHeights
            (exec (calculateVisualLines offsetHeight code (Some clientWidth)) w))
  = S (occurrences "010" code)
  /\ length (renderLineNumbers
               (exec (calculateVisualLines offsetHeight code (Some clientWidth))
                  w))
     = lineCount
         (exec (calculateVisualLines offsetHeight code (Some clientWidth)) w)
  /\ exec (calculateVisualLines offsetHeight code None) w = w.
Proof.
  unfold renderLineNumbers. cbn. split; [|split].
  - by rewrite length_map, split_length.
  - by rewrite rows_from_length, fold_sum.
  - reflexivity.
Qed.


End Measure.

(** X16: the React keys of the gutter's rows are pairwise distinct,
    whatever the heights. *)
Theorem gutter_keys_unique (w : World) :
  NoDup (map key (renderLineNumbers w)).
Proof. apply rows_from_keys_NoDup. Qed.


End GutterProps.

(** * Further properties of the name and icon lookup *)

Module FallbackProps.
Import Js JsFacts CredentialSelector LookupSpec.

Lemma string_append_length (a b : string) :
  String.length (a +:+ b) = String.length a + String.length b.
Proof.
  induction a as [|c a IH]; [reflexivity|].
  change (String c a +:+ b) with (String c (a +:+ b)). cbn. by rewrite IH.
Qed.

Lemma join_cons_length (sep x : string) (parts : list string) :
  String.length (join sep (x :: parts))
  = String.length x
    + match parts with
      | [] => 0
      | _ => String.length sep + String.length (join sep parts)
      end.
Proof.
  destruct parts as [|y parts]; cbn [join]; [lia|].
  by rewrite !string_append_length.
Qed.

(** Joining the parts of a split with the separator gives the string
    back. *)
Lemma split_join (c : ascii) (s : string) :
  join (String c "") (split c s) = s.
Proof.
  induction s as [|d s IH]; [reflexivity|].
  cbn [split]. destruct (Ascii.eqb_spec d c) as [->|Hd].
  - destruct (split c s) as [|part parts] eqn:Hsplit.
    { by apply split_nonempty in Hsplit. }
    change (join (String c "") ("" :: part :: parts))
      with ("" +:+ String c "" +:+ join (String c "") (part :: parts)).
    by rewrite IH.
  - destruct (split c s) as [|part [|part' parts]] eqn:Hsplit.
    + by apply split_nonempty in Hsplit.
    + cbn in *. by rewrite IH.
    + change (join (String c "") (String d part :: part' :: parts))
        with (String d (part +:+ String c ""
                        +:+ join (String c "") (part' :: parts))).
      f_equal. exact IH.
Qed.

Lemma join_map_length (f : string -> string) (parts : list string) :
  Forall (fun part => String.length (f part) = String.length part) parts ->
  String.length (join " " (map f parts))
  = String.length (join "-" parts).
Proof.
  induction 1 as [|part parts Hpart Hparts IH]; [reflexivity|].
  cbn [map]. rewrite !join_cons_length, Hpart.
  destruct parts as [|part' parts]; [reflexivity|].
  cbn [map] in *. by rewrite IH.
Qed.

Lemma includes_append (c : ascii) (a b : string) :
  includes c (a +:+ b) = includes c a || includes c b.
Proof.
  induction a as [|d a IH]; [reflexivity|].
  change (String d a +:+ b) with (String d (a +:+ b)). cbn.
  by destruct (Ascii.eqb d c).
Qed.

Lemma split_parts_clean (c : ascii) (s : string) :
  Forall (fun part => includes c part = false) (split c s).
Proof.
  induction s as [|d s IH]; cbn.
  - by repeat constructor.
  - destruct (Ascii.eqb d c) eqn:Hd.
    + by constructor.
    + destruct (split c s) as [|part parts].
      * repeat constructor. cbn. by rewrite Hd.
      * apply Forall_cons in IH as [Hpart Hparts].
        constructor; [|exact Hparts]. cbn. by rewrite Hd.
Qed.

Lemma join_clean (parts : list string) :
  Forall (fun part => includes "-" part = false) parts ->
  includes "-" (join " " parts) = false.
Proof.
  induction 1 as [|part parts Hpart Hparts IH]; [reflexivity|].
  destruct parts as [|part' parts]; [exact Hpart|].
  change (join " " (part :: part' :: parts))
    with (part +:+ " " +:+ join " " (part' :: parts)).
  rewrite !includes_append, Hpart, IH. reflexivity.
Qed.

Lemma charAt0_slice_length (part : string) :
  String.length (charAt0 part) + String.length (slice_from 1 part)
  = String.length part.
Proof. destruct part as [|c [|d rest]]; reflexivity. Qed.

Lemma slice_from_clean (part : string) :
  includes "-" part = false -> includes "-" (slice_from 1 part) = false.
Proof.
  destruct part as [|c [|d rest]]; cbn; try done.
  by destruct (Ascii.eqb c "-").
Qed.

Section Lookup.
Variable Element : Type.
Variable ExternalLink : string -> Element.
Variable toUpperCase : string -> string.
Variable OAUTH_PROVIDERS : gmap string (Config.t Element).
Variable parseProvider : string -> Result ParsedProvider.
Variable getServiceByProviderAndId :
  string -> string -> Result (Service.t Element).
Variable getServiceIdFromScopes : string -> list string -> string.
Variable props : Props.

Local Abbreviation name_of :=
  (getProviderName Element toUpperCase OAUTH_PROVIDERS parseProvider
     getServiceByProviderAndId getServiceIdFromScopes props).
Local Abbreviation icon_of :=
  (getProviderIcon Element ExternalLink OAUTH_PROVIDERS parseProvider).

Lemma title_length (p : string) :
  plain_initials toUpperCase p ->
  String.length (join " " (map (capitalize toUpperCase) (split "-" p)))
  = String.length p.
Proof.
  intros Hplain. rewrite join_map_length.
  - by rewrite split_join.
  - eapply Forall_impl; [exact Hplain|].
    intros part [Hlen _]. unfold capitalize.
    rewrite string_append_length, Hlen. apply charAt0_slice_length.
Qed.

Lemma title_clean (p : string) :
  plain_initials toUpperCase p ->
  includes "-" (join " " (map (capitalize toUpperCase) (split "-" p)))
  = false.
Proof.
  intros Hplain. apply join_clean, Forall_fmap.
  pose proof (split_parts_clean "-" p) as Hclean.
  unfold plain_initials in Hplain.
  rewrite Forall_forall in *. intros part Hin. cbn. unfold capitalize.
  destruct (Hplain part Hin) as [_ Hupper].
  rewrite includes_append, Hupper. cbn.
  by apply slice_from_clean, Hclean.
Qed.

(** X19: for a provider id the registry does not know (no exact match,
    and [OAUTH_PROVIDERS] has nothing, own or inherited, under its base
    provider) whose segment initials upper-case to one dash-free
    character each, the name shown is as long as the id and has no dash
    in it, and the icon, when [parseProvider] returns, is the
    [ExternalLink] one. *)
Theorem unregistered_fallback (p : string) :
  exact_match Element getServiceByProviderAndId getServiceIdFromScopes
    props p = None ->
  base_property Element OAUTH_PROVIDERS parseProvider p = Absent ->
  plain_initials toUpperCase p ->
  (exists n,
     name_of p = Return (Some n)
     /\ String.length n = String.length p
     /\ includes "-" n = false)
  /\ (forall parsed,
        parseProvider p = Return parsed ->
        icon_of p = Return (ExternalLink "h-4 w-4")).
Proof.
  unfold exact_match, base_property, getProviderName, getProviderName_parse.
  unfold getProviderIcon.
  intros Hexact Hbase Hplain.
  destruct (getServiceByProviderAndId p _) as [service|e]; [discriminate|].
  split.
  - exists (join " " (map (capitalize toUpperCase) (split "-" p))). split.
    + destruct (parseProvider p) as [parsed|e']; [|reflexivity].
      cbn zeta. rewrite Hbase. by destruct (includes "-" p).
    + split; [by apply title_length | by apply title_clean].
  - intros parsed Hparsed. rewrite Hparsed in *. by rewrite Hbase.
Qed.

(** X20: whenever the icon lookup shows the icon of a service (a
    compound id that is the provider id of a service of its base
    provider) and there is no exact match, the name lookup shows the
    name of a service of the same provider, never the provider's own
    name or a synthesized one. *)
Theorem service_icon_service_name
    (p : string) (parsed : ParsedProvider) (config : Config.t Element)
    (key : string) (service : Service.t Element) :
  parseProvider p = Return parsed ->
  OAUTH_PROVIDERS !! baseProvider parsed = Some config ->
  includes "-" p = true ->
  In (key, service) (Config.services config) ->
  Service.providerId service = p ->
  exact_match Element getServiceByProviderAndId getServiceIdFromScopes
    props p = None ->
  (exists key' service',
     In (key', service') (Config.services config)
     /\ Service.providerId service' = p
     /\ icon_of p = Return (Service.icon service' "h-4 w-4"))
  /\ (exists key' service',
        In (key', service') (Config.services config)
        /\ name_of p = Return (Some (Service.name service'))).
Proof.
  intros Hparsed Hconfig Hcompound Hin Hid Hexact. split.
  - unfold getProviderIcon, get_property.
    rewrite Hparsed, Hconfig, Hcompound.
    destruct (List.find _ (map snd (Config.services config)))
      as [service'|] eqn:Hfind.
    + apply find_some in Hfind as [Hin' Hid'].
      apply in_map_iff in Hin' as ([key' service''] & Heq & Hin').
      cbn in Heq. subst service''.
      exists key', service'. split; [exact Hin'|].
      split; [by apply String.eqb_eq | reflexivity].
    + assert (In service (map snd (Config.services config))) as Hservice.
      { apply in_map_iff. by exists (key, service). }
      pose proof (find_none _ _ Hfind service Hservice) as Hno. cbn in Hno.
      apply String.eqb_neq in Hno. contradiction.
  - unfold exact_match in Hexact.
    unfold getProviderName, getProviderName_parse, get_property.
    destruct (getServiceByProviderAndId p _) as [s|e]; [discriminate|].
    rewrite Hparsed. cbn zeta. rewrite Hconfig, Hcompound.
    destruct (List.find _ (Config.services config))
      as [[key' service']|] eqn:Hfind.
    + apply find_some in Hfind as [Hin' _].
      by exists key', service'.
    + pose proof (find_none _ _ Hfind (key, service) Hin) as Hno.
      cbn in Hno. rewrite Hid, String.eqb_refl in Hno.
      by rewrite !orb_true_r in Hno.
Qed.

End Lookup.

Lemma sample_plain_initials :
  plain_initials sample_toUpperCase "my-custom-tool".
Proof. unfold plain_initials. cbn. by repeat constructor. Qed.

(** An id no registry entry answers to. *)
Lemma unregistered_fallback_witness :
  exists n,
    getProviderName string sample_toUpperCase sample_providers
      sample_parseProvider sample_getService
      FetchSpec.sample_serviceIdFromScopes
      (FetchSpec.sample_props None) "my-custom-tool" = Return (Some n)
    /\ String.length n = 14
    /\ includes "-" n = false.
Proof.
  refine (proj1 (unregistered_fallback string sample_ExternalLink
                   sample_toUpperCase sample_providers sample_parseProvider
                   sample_getService FetchSpec.sample_serviceIdFromScopes
                   (FetchSpec.sample_props None) "my-custom-tool" _ _
                   sample_plain_initials));
    reflexivity.
Defined.

(** The sheets service of the sample registry. *)
Lemma service_icon_service_name_witness :
  exists key' service',
    In (key', service') (Config.services sample_google)
    /\ getProviderName string sample_toUpperCase sample_providers
         sample_parseProvider sample_getService
         FetchSpec.sample_serviceIdFromScopes
         (FetchSpec.sample_props None) "google-sheets"
       = Return (Some (Service.name service')).
Proof.
  refine (proj2 (service_icon_service_name string sample_ExternalLink
                   sample_toUpperCase sample_providers sample_parseProvider
                   sample_getService FetchSpec.sample_serviceIdFromScopes
                   (FetchSpec.sample_props None) "google-sheets"
                   {| baseProvider := "google" |} sample_google
                   "sheets" sample_sheets _ _ _ _ _ _));
    try reflexivity.
  by left.
Defined.

End FallbackProps.

(** * Further properties of the Agent block *)

Module OptionProps.
Import Js JsFacts AgentBlock AgentSpec AgentOptions AgentProps.

(** X18: every non-empty model name the dropdown offers resolves: with
    that name as [params.model], whatever else [params] holds, the
    resolver returns the table's tool for it and does not throw. *)
Theorem options_resolve
    (MODEL_TOOLS : gmap string string) (params : gmap string Value)
    (model : string) :
  tools_named MODEL_TOOLS ->
  model ∈ model_options MODEL_TOOLS ->
  model <> "" ->
  params !! "model" = Some (Str model) ->
  exists t,
    MODEL_TOOLS !! model = Some t
    /\ t <> ""
    /\ tool MODEL_TOOLS params = Return (ToolId t).
Proof.
  intros Hnamed Hoption Hne Hmodel. unfold model_options in Hoption.
  apply elem_of_dom in Hoption as [t Ht].
  exists t. split; [exact Ht|]. split; [by apply (Hnamed model)|].
  rewrite (tool_lookup MODEL_TOOLS Hnamed).
  assert (effective_model params = model) as ->;
    [|unfold get_property; by rewrite Ht].
  unfold effective_model. rewrite Hmodel. cbn.
  apply truthy_nonempty in Hne. by rewrite Hne.
Qed.

(** The one option of the sample table, beside an API key. *)
Lemma options_resolve_witness :
  exists t,
    sample_tools !! "gpt-4o" = Some t
    /\ t <> ""
    /\ tool sample_tools
         {[ "model" := Str "gpt-4o"; "apiKey" := Str "sk-test" ]}
       = Return (ToolId t).
Proof.
  apply (options_resolve sample_tools
           {[ "model" := Str "gpt-4o"; "apiKey" := Str "sk-test" ]} "gpt-4o"
           sample_tools_named).
  - unfold model_options, sample_tools. apply elem_of_dom. by eexists.
  - discriminate.
  - reflexivity.
Defined.

End OptionProps.
